(** * SDN sanctions screening connector: a shallow embedding

    Source: [app/connector/typescript/functions.ts], the three lambda
    functions [getSdnData], [checkCustomerAgainstSdn] and [bulkCheckSdn].

    The functions are [async]: their bodies are embedded as programs of a
    small free monad whose events are the outbound [fetch] and the
    [console.error] diagnostic, with [throw] and [try]/[catch].  A program is
    then run against a provider (the remote watchlist service) and, for the
    batch, against a completion order of the concurrent lookups. *)

From stdpp Require Import base option list strings pretty.
From Stdlib Require Import ZArith Lia Permutation Ascii.

Local Open Scope string_scope.
Set Warnings "-register-all".

(** ** JavaScript values *)

(** What [response.json()] can yield.  The connector never looks inside a
    scalar, so numbers are kept as integers. *)
Inductive json : Type :=
| JNull
| JBool (b : bool)
| JNum (n : Z)
| JStr (s : string)
| JArr (items : list json)
| JObj (fields : list (string * json)).

(** [Array.isArray(v)] *)
Definition Array_isArray (v : json) : bool :=
  match v with JArr _ => true | _ => false end.

(** [v.length]; the source reads it only under an [Array.isArray] guard,
    other values that carry no length read as 0 here. *)
Definition dot_length (v : json) : nat :=
  match v with
  | JArr items => length items
  | JStr s => String.length s
  | _ => 0
  end.

(** A thrown value: an [Error] object with its message, or anything else. *)
Inductive thrown : Type :=
| ErrorObj (message : string)
| ThrownValue (v : json).

(** [error instanceof Error ? error.message : 'Unknown error'] *)
Definition error_text (error : thrown) : string :=
  match error with
  | ErrorObj message => message
  | ThrownValue _ => "Unknown error"
  end.

(** Truthiness of an optional string argument ([if (name)]): defined and
    not the empty string. *)
Definition truthy (s : option string) : bool :=
  match s with
  | Some s => negb (String.eqb s "")
  | None => false
  end.

(** *** Numbers

    A JavaScript number as the connector can be handed one.  The connector
    does two things with a limit: it tests its truthiness and it takes its
    text ([limit.toString()]).
    - [Integer z] is the integer [z], for [z] of magnitude at most
      [2^53 - 1] (a safe integer); both zeros are [Integer 0].
    - [Finite text] is any other finite value (a fraction, or a value
      beyond the safe integers), given by the text [Number.prototype.toString]
      yields for it: ["1.5"], ["1e+21"], ["9007199254740992"].  That
      conversion belongs to the runtime, not to the connector; distinct
      values have distinct texts.
    - [NaN] and the two infinities. *)
Inductive number : Type :=
| Integer (z : Z)
| Finite (text : string)
| NaN
| Infinity (negative : bool).

Definition safe_integer (z : Z) : bool :=
  (Z.abs z <=? 2 ^ 53 - 1)%Z.

(** The value of a digit character. *)
Definition digit_value (c : ascii) : option N :=
  (if Ascii.eqb c "0" then Some 0
   else if Ascii.eqb c "1" then Some 1
   else if Ascii.eqb c "2" then Some 2
   else if Ascii.eqb c "3" then Some 3
   else if Ascii.eqb c "4" then Some 4
   else if Ascii.eqb c "5" then Some 5
   else if Ascii.eqb c "6" then Some 6
   else if Ascii.eqb c "7" then Some 7
   else if Ascii.eqb c "8" then Some 8
   else if Ascii.eqb c "9" then Some 9
   else None)%N%char.

(** The number a run of decimal digits denotes, read after [acc]. *)
Fixpoint digits_value (acc : N) (s : string) : option N :=
  match s with
  | EmptyString => Some acc
  | String c rest =>
      match digit_value c with
      | Some d => digits_value (acc * 10 + d) rest
      | None => None
      end
  end.

(** The natural number a decimal numeral denotes: ["0"], or digits that do
    not start with 0. *)
Definition natural_value (s : string) : option N :=
  if String.eqb s "0" then Some 0%N
  else
    match s with
    | EmptyString => None
    | String c _ => if Ascii.eqb c "0" then None else digits_value 0 s
    end.

(** The integer a decimal numeral denotes: a natural numeral, or a minus
    sign before the numeral of a positive number.  Any other text (a
    fraction, an exponent, a leading zero, ["-0"]) denotes none. *)
Definition decimal_value (s : string) : option Z :=
  match s with
  | EmptyString => None
  | String c rest =>
      if Ascii.eqb c "-" then
        match natural_value rest with
        | Some (Npos p) => Some (Zneg p)
        | _ => None
        end
      else Z.of_N <$> natural_value s
  end.

(** The terms of [number] that stand for a value: a safe integer, or a
    text that is not empty, not the numeral of a safe integer and not the
    text of [NaN] or of an infinity. *)
Definition is_number (n : number) : bool :=
  match n with
  | Integer z => safe_integer z
  | Finite text =>
      negb (String.eqb text "") &&
      negb (String.eqb text "NaN") &&
      negb (String.eqb text "Infinity") &&
      negb (String.eqb text "-Infinity") &&
      match decimal_value text with
      | Some z => negb (safe_integer z)
      | None => true
      end
  | NaN => true
  | Infinity _ => true
  end.

(** Truthiness of a number ([if (limit)]): every number but zero and
    [NaN]. *)
Definition truthy_num (n : number) : bool :=
  match n with
  | Integer z => negb (z =? 0)%Z
  | Finite _ => true
  | NaN => false
  | Infinity _ => true
  end.

(** [limit.toString()]: the decimal digits of an integer, with a leading
    minus sign when negative; the text of any other finite value; ["NaN"];
    ["Infinity"] or ["-Infinity"]. *)
Definition Number_toString (n : number) : string :=
  match n with
  | Integer z => pretty z
  | Finite text => text
  | NaN => "NaN"
  | Infinity negative => if negative then "-Infinity" else "Infinity"
  end.

(** [a || b] on an optional string. *)
Definition or_else (a : option string) (b : string) : string :=
  match a with
  | Some s => if String.eqb s "" then b else s
  | None => b
  end.

(** ** The interfaces of the source *)

Module SdnRecord.
Record t : Type := {
  id : string; schema : string; name : string; aliases : string;
  birth_date : string; countries : string; addresses : string;
  identifiers : string; sanctions : string; phones : string;
  emails : string; dataset : string; first_seen : string;
  last_seen : string; last_change : string }.

(** The JSON object the provider sends for a record. *)
Definition to_json (r : t) : json :=
  JObj [("id", JStr (id r)); ("schema", JStr (schema r));
        ("name", JStr (name r)); ("aliases", JStr (aliases r));
        ("birth_date", JStr (birth_date r));
        ("countries", JStr (countries r));
        ("addresses", JStr (addresses r));
        ("identifiers", JStr (identifiers r));
        ("sanctions", JStr (sanctions r)); ("phones", JStr (phones r));
        ("emails", JStr (emails r)); ("dataset", JStr (dataset r));
        ("first_seen", JStr (first_seen r));
        ("last_seen", JStr (last_seen r));
        ("last_change", JStr (last_change r))].
End SdnRecord.

(** The [data] and [matches] fields are declared [SdnRecord[]], but the
    value stored is the parsed body under an unchecked [as] cast: at run
    time it is whatever JSON the provider sent. *)
Module SdnDataResponse.
Record t : Type := {
  success : bool;
  data : json;
  count : nat;
  error : option string }.
End SdnDataResponse.

Module CustomerCheckResponse.
Record t : Type := {
  customerName : string;
  isSDN : option bool;          (* boolean | null *)
  matchCount : nat;
  matches : json;
  riskLevel : string;
  error : option string }.
End CustomerCheckResponse.

Module BulkCheckSummary.
Record t : Type := {
  critical : nat;
  clear : nat;
  unknown : nat }.
End BulkCheckSummary.

Module BulkCheckResponse.
Record t : Type := {
  success : bool;
  totalChecked : nat;
  flaggedCount : nat;
  results : list CustomerCheckResponse.t;
  summary : BulkCheckSummary.t;
  error : option string }.
End BulkCheckResponse.

(** ** The network boundary *)

(** [URLSearchParams]: an ordered list of name/value pairs. *)
Definition URLSearchParams : Type := list (string * string).

Definition append (params : URLSearchParams) (k v : string) : URLSearchParams :=
  (params ++ [(k, v)])%list.

(** [params.get(k)]: the first value under [k]. *)
Fixpoint get (params : URLSearchParams) (k : string) : option string :=
  match params with
  | [] => None
  | (k', v) :: rest => if String.eqb k' k then Some v else get rest k
  end.

(** An outbound request.  The URL is kept in its parts: [endpoint] is the
    text before the query string and [query] the parameters that
    [params.toString()] serialises after it. *)
Record request : Type := {
  endpoint : string;
  query : URLSearchParams;
  method : string;
  headers : list (string * string) }.

(** A [Response]: [body] is what [response.json()] settles to. *)
Record response : Type := {
  status : Z;
  statusText : string;
  body : thrown + json }.

(** [response.ok]: the status is in the range 200-299. *)
Definition ok (r : response) : bool :=
  ((200 <=? status r) && (status r <=? 299))%Z.

(** How a [fetch] settles: rejected (network-level failure) or resolved
    with a response of any status. *)
Definition fetch_outcome : Type := thrown + response.

(** The remote provider: its answer to a request, which may depend on the
    requests issued before it. *)
Definition provider : Type := list request -> request -> fetch_outcome.

(** ** Programs *)

Inductive prog (A : Type) : Type :=
| Ret (a : A)
| Throw (e : thrown)
| ConsoleError (label : string) (e : thrown) (k : prog A)
| Fetch (req : request) (k : fetch_outcome -> prog A).

Arguments Ret {A} a.
Arguments Throw {A} e.
Arguments ConsoleError {A} label e k.
Arguments Fetch {A} req k.

Fixpoint bind {A B : Type} (p : prog A) (f : A -> prog B) : prog B :=
  match p with
  | Ret a => f a
  | Throw e => Throw e
  | ConsoleError label e k => ConsoleError label e (bind k f)
  | Fetch req k => Fetch req (fun o => bind (k o) f)
  end.

#[export] Instance prog_ret : MRet prog := @Ret.
#[export] Instance prog_bind : MBind prog := fun A B f p => bind p f.

(** [try { p } catch (error) { handler error }] *)
Fixpoint try_catch {A : Type} (p : prog A) (handler : thrown -> prog A) : prog A :=
  match p with
  | Ret a => Ret a
  | Throw e => handler e
  | ConsoleError label e k => ConsoleError label e (try_catch k handler)
  | Fetch req k => Fetch req (fun o => try_catch (k o) handler)
  end.

(** [await fetch(url, init)]: a rejection is thrown at the [await]. *)
Definition fetch (req : request) : prog response :=
  Fetch req (fun o => match o with inl e => Throw e | inr r => Ret r end).

(** [await response.json()] *)
Definition response_json (r : response) : prog json :=
  match body r with
  | inl e => Throw e
  | inr v => Ret v
  end.

Definition console_error (label : string) (e : thrown) : prog unit :=
  ConsoleError label e (Ret tt).

(** ** The world a program runs in *)

Record world : Type := {
  calls : list request;               (* outbound requests, oldest first *)
  console : list (string * thrown) }. (* console.error lines, oldest first *)

Definition empty_world : world := {| calls := []; console := [] |}.

Definition issue (req : request) (w : world) : world :=
  {| calls := (calls w ++ [req])%list; console := console w |}.

Definition log_line (label : string) (e : thrown) (w : world) : world :=
  {| calls := calls w; console := (console w ++ [(label, e)])%list |}.

(** How a call ends: a returned value, or an exception that escaped. *)
Inductive completion (A : Type) : Type :=
| Returned (a : A)
| Raised (e : thrown).

Arguments Returned {A} a.
Arguments Raised {A} e.

(** A program run on its own: every [await] resumes as soon as the provider
    has answered. *)
Fixpoint run {A : Type} (net : provider) (p : prog A) (w : world)
  : completion A * world :=
  match p with
  | Ret a => (Returned a, w)
  | Throw e => (Raised e, w)
  | ConsoleError label e k => run net k (log_line label e w)
  | Fetch req k => run net (k (net (calls w) req)) (issue req w)
  end.

(** ** Concurrent execution: [Promise.all] *)

(** A promise handed to [Promise.all]: settled, or suspended at an [await]
    with the rest of its body (the provider's answer already bound). *)
Inductive task (A : Type) : Type :=
| Settled (c : completion A)
| Suspended (rest : prog A).

Arguments Settled {A} c.
Arguments Suspended {A} rest.

(** Runs a body up to its next [await]: a [fetch] is issued at once and the
    body is suspended until the scheduler resumes it. *)
Fixpoint advance {A : Type} (net : provider) (p : prog A) (w : world)
  : task A * world :=
  match p with
  | Ret a => (Settled (Returned a), w)
  | Throw e => (Settled (Raised e), w)
  | ConsoleError label e k => advance net k (log_line label e w)
  | Fetch req k => (Suspended (k (net (calls w) req)), issue req w)
  end.

(** Calling the async functions one after the other, as [Array.map] does:
    each runs up to its first [await] before the next is called. *)
Fixpoint launch {A : Type} (net : provider) (ps : list (prog A)) (w : world)
  : list (task A) * world :=
  match ps with
  | [] => ([], w)
  | p :: ps' =>
      let '(t, w1) := advance net p w in
      let '(ts, w2) := launch net ps' w1 in
      (t :: ts, w2)
  end.

(** What [Promise.all] has to say about its tasks: rejected once a task is
    rejected, fulfilled with the values in index order once every task is
    fulfilled, pending ([None]) otherwise. *)
Fixpoint gather {A : Type} (ts : list (task A)) : option (completion (list A)) :=
  match ts with
  | [] => Some (Returned [])
  | Settled (Raised e) :: _ => Some (Raised e)
  | Settled (Returned a) :: ts' =>
      match gather ts' with
      | Some (Returned vs) => Some (Returned (a :: vs))
      | Some (Raised e) => Some (Raised e)
      | None => None
      end
  | Suspended _ :: ts' =>
      match gather ts' with
      | Some (Raised e) => Some (Raised e)
      | _ => None
      end
  end.

(** The event loop while [Promise.all] is awaited.  [order] lists the task
    indices in the order their awaited answers arrive; an index that is out
    of range or whose task is already settled changes nothing.  [None]: the
    order ran out with a task still suspended, the promise never settles. *)
Fixpoint settle {A : Type} (net : provider) (order : list nat)
  (ts : list (task A)) (w : world) : option (completion (list A) * world) :=
  match gather ts with
  | Some c => Some (c, w)
  | None =>
      match order with
      | [] => None
      | i :: order' =>
          match ts !! i with
          | Some (Suspended rest) =>
              let '(t, w') := advance net rest w in
              settle net order' (<[i := t]> ts) w'
          | _ => settle net order' ts w
          end
      end
  end.

(** An async function that awaits [Promise.all]: it may never return. *)
Definition async (A : Type) : Type := world -> option (completion A * world).

#[export] Instance async_ret : MRet async :=
  fun A a w => Some (Returned a, w).
#[export] Instance async_bind : MBind async :=
  fun A B f m w =>
    match m w with
    | Some (Returned a, w') => f a w'
    | Some (Raised e, w') => Some (Raised e, w')
    | None => None
    end.

Definition async_try_catch {A : Type} (m : async A) (handler : thrown -> async A)
  : async A :=
  fun w =>
    match m w with
    | Some (Raised e, w') => handler e w'
    | other => other
    end.

Definition async_console_error (label : string) (e : thrown) : async unit :=
  fun w => Some (Returned tt, log_line label e w).

(** [await Promise.all(ps)] for promises made by calling the bodies [ps] in
    order. *)
Definition Promise_all {A : Type} (net : provider) (order : list nat)
  (ps : list (prog A)) : async (list A) :=
  fun w => let '(ts, w1) := launch net ps w in settle net order ts w1.

(** The argument of [bulkCheckSdn] as it arrives at run time: declared
    [string[]], but the function first tests whether it is an array. *)
Inductive names_arg : Type :=
| ArgUndefined
| ArgNull
| ArgBool (b : bool)
| ArgNum (n : Z)
| ArgStr (s : string)
| ArgObj (fields : list (string * json))
| ArgNames (names : list string).

Definition Array_isArray_arg (v : names_arg) : bool :=
  match v with ArgNames _ => true | _ => false end.

(** The elements of the argument once it is known to be an array. *)
Definition elements_of (v : names_arg) : list string :=
  match v with ArgNames names => names | _ => [] end.

(** [v === true] on a [boolean | null] field. *)
Definition is_true (v : option bool) : bool :=
  match v with Some true => true | _ => false end.

(** ** The connector *)

Section Connector.

(** [process.env.SDN_API_URL] *)
Context (SDN_API_URL : option string).

Definition API_BASE_URL : string :=
  or_else SDN_API_URL "https://sdn-api-w7wr.onrender.com".

(** The request [getSdnData] builds and hands to [fetch]: the parameters in
    the order they are appended, then the URL and the [init] object.
    Nothing in these steps can throw, so they are kept apart from the
    [try] body that starts at the [fetch]. *)
Definition getSdnData_request (name country : option string) (limit : number)
  : request :=
  let params : URLSearchParams := [] in
  let params := if truthy name then append params "name" (default "" name) else params in
  let params := if truthy country then append params "country" (default "" country) else params in
  let params := if truthy_num limit then append params "limit" (Number_toString limit) else params in
  {| endpoint := API_BASE_URL +:+ "/getsdn?";
     query := params;
     method := "GET";
     headers := [("Content-Type", "application/json")] |}.

(** [limit] is [None] when the argument is omitted: its default is 100. *)
Definition getSdnData (name country : option string) (limit : option number)
  : prog SdnDataResponse.t :=
  let limit := default (Integer 100) limit in
  try_catch
    (response ← fetch (getSdnData_request name country limit);
     if negb (ok response) then
       Throw (ErrorObj ("SDN API request failed: " +:+ statusText response))
     else
       data ← response_json response;
       mret {| SdnDataResponse.success := true;
               SdnDataResponse.data := data;
               SdnDataResponse.count :=
                 if Array_isArray data then dot_length data else 0;
               SdnDataResponse.error := None |})
    (fun error =>
       _ ← console_error "Error fetching SDN data:" error;
       mret {| SdnDataResponse.success := false;
               SdnDataResponse.error := Some (error_text error);
               SdnDataResponse.data := JArr [];
               SdnDataResponse.count := 0 |}).

(** The request [checkCustomerAgainstSdn] builds: [fetch(url)] with no
    [init], so the method is the default GET and no header is set. *)
Definition checkCustomerAgainstSdn_request (customerName : string)
  (fuzzyMatch : bool) : request :=
  let params : URLSearchParams := [] in
  let params := append params "name" customerName in
  let params := if fuzzyMatch then append params "fuzzy" "true" else params in
  {| endpoint := API_BASE_URL +:+ "/getsdn?";
     query := params;
     method := "GET";
     headers := [] |}.

(** [fuzzyMatch] is [None] when the argument is omitted: its default is
    [true]. *)
Definition checkCustomerAgainstSdn (customerName : string)
  (fuzzyMatch : option bool) : prog CustomerCheckResponse.t :=
  let fuzzyMatch := default true fuzzyMatch in
  try_catch
    (response ← fetch (checkCustomerAgainstSdn_request customerName fuzzyMatch);
     if negb (ok response) then
       Throw (ErrorObj ("SDN check failed: " +:+ statusText response))
     else
       matches ← response_json response;
       let hasMatch := Array_isArray matches && (0 <? dot_length matches)%nat in
       mret {| CustomerCheckResponse.customerName := customerName;
               CustomerCheckResponse.isSDN := Some hasMatch;
               CustomerCheckResponse.matchCount :=
                 if Array_isArray matches then dot_length matches else 0;
               CustomerCheckResponse.matches := matches;
               CustomerCheckResponse.riskLevel :=
                 if hasMatch then "CRITICAL" else "CLEAR";
               CustomerCheckResponse.error := None |})
    (fun error =>
       _ ← console_error "Error checking customer against SDN list:" error;
       mret {| CustomerCheckResponse.customerName := customerName;
               CustomerCheckResponse.isSDN := None;
               CustomerCheckResponse.error := Some (error_text error);
               CustomerCheckResponse.matches := JArr [];
               CustomerCheckResponse.matchCount := 0;
               CustomerCheckResponse.riskLevel := "UNKNOWN" |}).

(** [net] and [order] are the surroundings of the call: the provider that
    answers the requests and the order in which the answers arrive. *)
Definition bulkCheckSdn (net : provider) (order : list nat)
  (customerNames : names_arg) : async BulkCheckResponse.t :=
  if negb (Array_isArray_arg customerNames)
     || (length (elements_of customerNames) =? 0)%nat then
    mret {| BulkCheckResponse.success := false;
            BulkCheckResponse.error := Some "customerNames must be a non-empty array";
            BulkCheckResponse.results := [];
            BulkCheckResponse.totalChecked := 0;
            BulkCheckResponse.flaggedCount := 0;
            BulkCheckResponse.summary :=
              {| BulkCheckSummary.critical := 0;
                 BulkCheckSummary.clear := 0;
                 BulkCheckSummary.unknown := 0 |} |}
  else
    async_try_catch
      (let checkPromises :=
         map (fun name => checkCustomerAgainstSdn name (Some true))
             (elements_of customerNames) in
       results ← Promise_all net order checkPromises;
       let flaggedCustomers :=
         List.filter (fun r => is_true (CustomerCheckResponse.isSDN r)) results in
       mret {| BulkCheckResponse.success := true;
               BulkCheckResponse.totalChecked := length results;
               BulkCheckResponse.flaggedCount := length flaggedCustomers;
               BulkCheckResponse.results := results;
               BulkCheckResponse.summary :=
                 {| BulkCheckSummary.critical := length flaggedCustomers;
                    BulkCheckSummary.clear :=
                      length (List.filter
                        (fun r => String.eqb (CustomerCheckResponse.riskLevel r) "CLEAR")
                        results);
                    BulkCheckSummary.unknown :=
                      length (List.filter
                        (fun r => String.eqb (CustomerCheckResponse.riskLevel r) "UNKNOWN")
                        results) |};
               BulkCheckResponse.error := None |})
      (fun error =>
         _ ← async_console_error "Error in bulk SDN check:" error;
         mret {| BulkCheckResponse.success := false;
                 BulkCheckResponse.error := Some (error_text error);
                 BulkCheckResponse.results := [];
                 BulkCheckResponse.totalChecked := 0;
                 BulkCheckResponse.flaggedCount := 0;
                 BulkCheckResponse.summary :=
                   {| BulkCheckSummary.critical := 0;
                      BulkCheckSummary.clear := 0;
                      BulkCheckSummary.unknown := 0 |} |}).
End Connector.

(** ** Notions used to state the properties *)

(** The rest of a body after its first [await fetch], given how the fetch
    settled. *)
Definition continuation {A : Type} (p : prog A) (o : fetch_outcome) : prog A :=
  match p with
  | Fetch _ k => k o
  | _ => p
  end.

(** What a call returns when every fetch it makes settles as [o]. *)
Definition answer {A : Type} (p : prog A) (o : fetch_outcome) : completion A :=
  fst (run (fun _ _ => o) p empty_world).

(** The completion of a body that issues no further request, and the
    console lines it writes. *)
Fixpoint verdict {A : Type} (q : prog A) : option (completion A) :=
  match q with
  | Ret a => Some (Returned a)
  | Throw e => Some (Raised e)
  | ConsoleError _ _ k => verdict k
  | Fetch _ _ => None
  end.

Fixpoint lines {A : Type} (q : prog A) : list (string * thrown) :=
  match q with
  | ConsoleError label e k => (label, e) :: lines k
  | _ => []
  end.

Definition logged (ls : list (string * thrown)) (w : world) : world :=
  {| calls := calls w; console := (console w ++ ls)%list |}.

(** A lookup failed: the fetch was rejected, the status is not 2xx, or the
    body of a 2xx response could not be read as JSON. *)
Definition lookup_failed (o : fetch_outcome) : bool :=
  match o with
  | inl _ => true
  | inr r => negb (ok r) || match body r with inl _ => true | inr _ => false end
  end.

(** Transport failure only: rejected fetch or non-2xx status. *)
Definition transport_failed (o : fetch_outcome) : bool :=
  match o with
  | inl _ => true
  | inr r => negb (ok r)
  end.

(** The names of a batch, each with the outcome of the request issued for
    it; [hist] is the list of requests issued before the batch. *)
Fixpoint lookups (SDN_API_URL : option string) (net : provider)
  (hist : list request) (names : list string) : list (string * fetch_outcome) :=
  match names with
  | [] => []
  | name :: rest =>
      let req := checkCustomerAgainstSdn_request SDN_API_URL name true in
      (name, net hist req) :: lookups SDN_API_URL net (hist ++ [req])%list rest
  end.

(** Every one of the first [n] tasks gets its answer at some point. *)
Definition complete_order (n : nat) (order : list nat) : Prop :=
  forall i, i < n -> i ∈ order.

(** A task that is settled with [r], or suspended with nothing left to do
    but return [r]. *)
Definition yields {A : Type} (t : task A) (r : A) : Prop :=
  t = Settled (Returned r) \/
  exists q, t = Suspended q /\ verdict q = Some (Returned r).

(** [r] is what the check of a name returns on its own when its lookup
    settles as the paired outcome. *)
Definition entry_of (SDN_API_URL : option string) (no : string * fetch_outcome)
  (r : CustomerCheckResponse.t) : Prop :=
  answer (checkCustomerAgainstSdn SDN_API_URL no.1 (Some true)) no.2 = Returned r.

(** The task of a launched check, suspended at its fetch. *)
Definition check_task (SDN_API_URL : option string) (no : string * fetch_outcome)
  : task CustomerCheckResponse.t :=
  Suspended (continuation (checkCustomerAgainstSdn SDN_API_URL no.1 (Some true)) no.2).

(** The response of a batch that ran, in terms of its entries. *)
Definition reports (rs : list CustomerCheckResponse.t) (r : BulkCheckResponse.t)
  : Prop :=
  BulkCheckResponse.success r = true /\
  BulkCheckResponse.results r = rs /\
  BulkCheckResponse.totalChecked r = length rs /\
  BulkCheckResponse.flaggedCount r =
    length (List.filter (fun e => is_true (CustomerCheckResponse.isSDN e)) rs) /\
  BulkCheckSummary.critical (BulkCheckResponse.summary r) =
    length (List.filter (fun e => is_true (CustomerCheckResponse.isSDN e)) rs) /\
  BulkCheckSummary.clear (BulkCheckResponse.summary r) =
    length (List.filter
      (fun e => String.eqb (CustomerCheckResponse.riskLevel e) "CLEAR") rs) /\
  BulkCheckSummary.unknown (BulkCheckResponse.summary r) =
    length (List.filter
      (fun e => String.eqb (CustomerCheckResponse.riskLevel e) "UNKNOWN") rs) /\
  BulkCheckResponse.error r = None.

(** The message a failed lookup leaves in the [error] field ([None] when
    the lookup did not fail); [prefix] is the text put before the status
    text of a non-2xx response. *)
Definition failure_reason (prefix : string) (o : fetch_outcome) : option string :=
  match o with
  | inl e => Some (error_text e)
  | inr r =>
      if ok r then
        match body r with
        | inl e => Some (error_text e)
        | inr _ => None
        end
      else Some (prefix +:+ statusText r)
  end.

(** *** The single check as a delegation (spec, section 4.2)

    The decision rule in the spec's words, on a lookup result: a failed
    lookup gives match flag null, risk UNKNOWN and the lookup's error; a
    successful lookup with zero matches gives false and CLEAR; with one or
    more matches true and CRITICAL, the count and the records returned. *)
Definition decision_rule (customerName : string) (lookup : SdnDataResponse.t)
  : CustomerCheckResponse.t :=
  if negb (SdnDataResponse.success lookup) then
    {| CustomerCheckResponse.customerName := customerName;
       CustomerCheckResponse.isSDN := None;
       CustomerCheckResponse.matchCount := 0;
       CustomerCheckResponse.matches := JArr [];
       CustomerCheckResponse.riskLevel := "UNKNOWN";
       CustomerCheckResponse.error := SdnDataResponse.error lookup |}
  else if (SdnDataResponse.count lookup =? 0)%nat then
    {| CustomerCheckResponse.customerName := customerName;
       CustomerCheckResponse.isSDN := Some false;
       CustomerCheckResponse.matchCount := 0;
       CustomerCheckResponse.matches := SdnDataResponse.data lookup;
       CustomerCheckResponse.riskLevel := "CLEAR";
       CustomerCheckResponse.error := None |}
  else
    {| CustomerCheckResponse.customerName := customerName;
       CustomerCheckResponse.isSDN := Some true;
       CustomerCheckResponse.matchCount := SdnDataResponse.count lookup;
       CustomerCheckResponse.matches := SdnDataResponse.data lookup;
       CustomerCheckResponse.riskLevel := "CRITICAL";
       CustomerCheckResponse.error := None |}.

(** The check as the spec describes it: the Watchlist Client queried with
    the name alone, then the decision rule. *)
Definition delegated_check (SDN_API_URL : option string) (net : provider)
  (customerName : string) (w : world) : completion CustomerCheckResponse.t :=
  match fst (run net (getSdnData SDN_API_URL (Some customerName) None None) w) with
  | Returned lookup => Returned (decision_rule customerName lookup)
  | Raised e => Raised e
  end.

(** The classification carried by a check result. *)
Definition classification (r : CustomerCheckResponse.t)
  : option bool * string * nat :=
  (CustomerCheckResponse.isSDN r,
   CustomerCheckResponse.riskLevel r,
   CustomerCheckResponse.matchCount r).

Definition classification_of (c : completion CustomerCheckResponse.t)
  : option (option bool * string * nat) :=
  match c with
  | Returned r => Some (classification r)
  | Raised _ => None
  end.

(** *** Providers and inputs used in the examples *)

Definition sanctioned : SdnRecord.t :=
  {| SdnRecord.id := "ofac-7157"; SdnRecord.schema := "Organization";
     SdnRecord.name := "Known Sanctioned Entity"; SdnRecord.aliases := "KSE";
     SdnRecord.birth_date := ""; SdnRecord.countries := "ir";
     SdnRecord.addresses := ""; SdnRecord.identifiers := "";
     SdnRecord.sanctions := "SDGT"; SdnRecord.phones := "";
     SdnRecord.emails := ""; SdnRecord.dataset := "us_ofac_sdn";
     SdnRecord.first_seen := "2025-08-06"; SdnRecord.last_seen := "2025-08-06";
     SdnRecord.last_change := "2025-08-06" |}.

Definition ok_with (v : json) : fetch_outcome :=
  inr {| status := 200; statusText := "OK"; body := inr v |}.

(** Answers by the [name] parameter alone: one record for the sanctioned
    name, none for any other. *)
Definition scenario_provider : provider :=
  fun _ req =>
    match get (query req) "name" with
    | Some "Known Sanctioned Entity" => ok_with (JArr [SdnRecord.to_json sanctioned])
    | _ => ok_with (JArr [])
    end.

(** The endpoint cannot be reached: every fetch is rejected. *)
Definition unreachable_provider : provider :=
  fun _ _ => inl (ErrorObj "fetch failed").

(** Matches approximately only when asked to: a request carrying
    [fuzzy=true] gets the record, any other gets none. *)
Definition fuzzy_provider : provider :=
  fun _ req =>
    match get (query req) "fuzzy" with
    | Some "true" => ok_with (JArr [SdnRecord.to_json sanctioned])
    | _ => ok_with (JArr [])
    end.

(** Answers 200 with a JSON object instead of an array. *)
Definition object_provider : provider :=
  fun _ _ => ok_with (JObj [("message", JStr "rate limited")]).

(** Answers 200 with a JSON string instead of an array. *)
Definition string_provider : provider :=
  fun _ _ => ok_with (JStr "down").

Definition scenario_names : list string :=
  ["Jane Doe"; "Known Sanctioned Entity"; "John Smith"].

(** *** Notions for the properties beyond the claims *)

(** The value caught by the [catch] block of a lookup, if any: the
    rejection of the fetch, the [Error] made for a non-2xx response
    ([prefix] before its status text), or the rejection of
    [response.json()]. *)
Definition thrown_of (prefix : string) (o : fetch_outcome) : option thrown :=
  match o with
  | inl e => Some e
  | inr r =>
      if ok r then
        match body r with
        | inl e => Some e
        | inr _ => None
        end
      else Some (ErrorObj (prefix +:+ statusText r))
  end.

(** The console line a caught value leaves under [label]. *)
Definition diagnostic (label : string) (caught : option thrown)
  : list (string * thrown) :=
  match caught with
  | Some e => [(label, e)]
  | None => []
  end.

(** The checks of a list of names run one after the other, each awaited
    before the next is called (a [for] loop with [await] in its body). *)
Fixpoint check_each (SDN_API_URL : option string) (net : provider)
  (names : list string) (w : world)
  : list (completion CustomerCheckResponse.t) * world :=
  match names with
  | [] => ([], w)
  | name :: rest =>
      let '(c, w1) := run net (checkCustomerAgainstSdn SDN_API_URL name (Some true)) w in
      let '(cs, w2) := check_each SDN_API_URL net rest w1 in
      (c :: cs, w2)
  end.

(** The console lines the suspended tasks have yet to write. *)
Definition task_lines {A : Type} (t : task A) : list (string * thrown) :=
  match t with
  | Settled _ => []
  | Suspended q => lines q
  end.

Definition pending_lines {A : Type} (ts : list (task A)) : list (string * thrown) :=
  concat (map task_lines ts).

(** The lookup was answered 2xx with a non-empty JSON array. *)
Definition has_records (o : fetch_outcome) : bool :=
  match o with
  | inr r =>
      ok r && match body r with
              | inr (JArr (_ :: _)) => true
              | _ => false
              end
  | inl _ => false
  end.

(** One lookup of the batch is rejected at the network, the others are
    answered. *)
Definition mixed_names : list string :=
  ["Jane Doe"; "Unreachable Ltd"; "Known Sanctioned Entity"].

Definition mixed_provider : provider :=
  fun hist req =>
    match get (query req) "name" with
    | Some "Unreachable Ltd" => inl (ErrorObj "fetch failed")
    | _ => scenario_provider hist req
    end.

(** ** Running programs *)

Lemma run_verdict {A : Type} (net : provider) (q : prog A) (c : completion A) :
  verdict q = Some c -> forall w, run net q w = (c, logged (lines q) w).
Proof.
  induction q as [a | e | label e k IH | req k IH]; simpl; intros Hv w.
  - injection Hv as <-. destruct w; unfold logged; simpl. by rewrite app_nil_r.
  - injection Hv as <-. destruct w; unfold logged; simpl. by rewrite app_nil_r.
  - rewrite (IH Hv). destruct w; unfold logged, log_line; simpl.
    by rewrite <- app_assoc.
  - discriminate.
Qed.

Lemma advance_verdict {A : Type} (net : provider) (q : prog A) (c : completion A) :
  verdict q = Some c -> forall w, advance net q w = (Settled c, logged (lines q) w).
Proof.
  induction q as [a | e | label e k IH | req k IH]; simpl; intros Hv w.
  - injection Hv as <-. destruct w; unfold logged; simpl. by rewrite app_nil_r.
  - injection Hv as <-. destruct w; unfold logged; simpl. by rewrite app_nil_r.
  - rewrite (IH Hv). destruct w; unfold logged, log_line; simpl.
    by rewrite <- app_assoc.
  - discriminate.
Qed.

(** Case analysis on how a lookup settles: rejected fetch, 2xx response
    with an unreadable body, 2xx response with a JSON body, non-2xx
    response. *)
Ltac by_outcome o :=
  let e := fresh "e" in
  let resp := fresh "resp" in
  let v := fresh "v" in
  destruct o as [e | resp]; cbn;
  [ | destruct (ok resp); cbn;
      [ unfold response_json; destruct (body resp) as [e | v]; cbn | ] ].

(** ** The single-name check *)

Lemma check_fetch (env : option string) (name : string) (fz : option bool) :
  checkCustomerAgainstSdn env name fz =
  Fetch (checkCustomerAgainstSdn_request env name (default true fz))
        (continuation (checkCustomerAgainstSdn env name fz)).
Proof. reflexivity. Qed.

Lemma check_continuation (env : option string) (name : string)
  (fz : option bool) (o : fetch_outcome) :
  verdict (continuation (checkCustomerAgainstSdn env name fz) o) =
  Some (answer (checkCustomerAgainstSdn env name fz) o).
Proof.
  unfold answer. destruct o as [e | resp]; [reflexivity |].
  cbn. destruct (ok resp); [| reflexivity].
  cbn. unfold response_json. destruct (body resp); reflexivity.
Qed.

Lemma check_answer (env : option string) (name : string) (fz : option bool)
  (o : fetch_outcome) :
  exists r,
    answer (checkCustomerAgainstSdn env name fz) o = Returned r /\
    CustomerCheckResponse.customerName r = name /\
    if lookup_failed o then
      CustomerCheckResponse.isSDN r = None /\
      CustomerCheckResponse.riskLevel r = "UNKNOWN" /\
      CustomerCheckResponse.matchCount r = 0 /\
      CustomerCheckResponse.matches r = JArr [] /\
      is_Some (CustomerCheckResponse.error r)
    else
      exists b,
        CustomerCheckResponse.isSDN r = Some b /\
        CustomerCheckResponse.riskLevel r = (if b then "CRITICAL" else "CLEAR") /\
        CustomerCheckResponse.error r = None.
Proof.
  unfold answer. by_outcome o; eexists; repeat split; eauto.
Qed.

(** ** The event loop *)

Lemma gather_yields {A : Type} (ts : list (task A)) (rs : list A) :
  Forall2 yields ts rs ->
  gather ts = Some (Returned rs) \/
  (gather ts = None /\ exists i q, ts !! i = Some (Suspended q)).
Proof.
  induction 1 as [| t r ts rs Ht _ IH]; simpl; [by left |].
  destruct Ht as [-> | (q & -> & _)].
  - destruct IH as [-> | (-> & i & q & Hi)]; [by left |].
    right. split; [done |]. by exists (S i), q.
  - right. split.
    + by destruct IH as [-> | (-> & _)].
    + by exists 0, q.
Qed.

Lemma yields_settled {A : Type} (ts : list (task A)) (rs : list A) (i : nat)
  (q : prog A) :
  Forall2 yields ts rs -> ts !! i = Some (Suspended q) ->
  exists r, verdict q = Some (Returned r) /\
            Forall2 yields (<[i := Settled (Returned r)]> ts) rs.
Proof.
  intros Hts Hi.
  destruct (Forall2_lookup_l _ _ _ _ _ Hts Hi) as (r & Hr & Hy).
  destruct Hy as [? | (q' & [= <-] & Hv)]; [done |].
  exists r. split; [done |].
  rewrite <- (list_insert_id rs i r Hr).
  apply Forall2_insert; [done | by left].
Qed.

Lemma settle_sound {A : Type} (net : provider) (order : list nat) :
  forall (ts : list (task A)) (rs : list A) (w : world) c w',
    Forall2 yields ts rs ->
    settle net order ts w = Some (c, w') ->
    c = Returned rs /\ calls w' = calls w.
Proof.
  induction order as [| i order IH]; intros ts rs w c w' Hts; simpl;
    destruct (gather_yields ts rs Hts) as [-> | (-> & _)];
    try (intros [= <- <-]; done); try done.
  destruct (ts !! i) as [[c0 | q] |] eqn:Hi; try (by apply IH).
  destruct (yields_settled ts rs i q Hts Hi) as (r & Hv & Hts').
  rewrite (advance_verdict net q _ Hv w).
  intros Hs. by destruct (IH _ _ _ _ _ Hts' Hs) as [-> ->].
Qed.

Lemma settle_complete {A : Type} (net : provider) (order : list nat) :
  forall (ts : list (task A)) (rs : list A) (w : world),
    Forall2 yields ts rs ->
    (forall i q, ts !! i = Some (Suspended q) -> i ∈ order) ->
    is_Some (settle net order ts w).
Proof.
  induction order as [| i order IH]; intros ts rs w Hts Hcov; simpl;
    destruct (gather_yields ts rs Hts) as [-> | (-> & j & q & Hj)]; try done.
  - by apply Hcov, elem_of_nil in Hj.
  - destruct (ts !! i) as [[c0 | q'] |] eqn:Hi.
    + apply (IH _ rs); [done |]. intros k qk Hk.
      specialize (Hcov k qk Hk). apply elem_of_cons in Hcov as [-> | ?]; [| done].
      congruence.
    + destruct (yields_settled ts rs i q' Hts Hi) as (r & Hv & Hts').
      rewrite (advance_verdict net q' _ Hv w).
      apply (IH _ rs); [done |]. intros k qk Hk.
      destruct (decide (k = i)) as [-> | Hne].
      * rewrite list_lookup_insert_eq in Hk; [done |].
        by eapply lookup_lt_Some.
      * rewrite list_lookup_insert_ne in Hk; [| done].
        specialize (Hcov k qk Hk). by apply elem_of_cons in Hcov as [-> | ?].
    + apply (IH _ rs); [done |]. intros k qk Hk.
      specialize (Hcov k qk Hk). apply elem_of_cons in Hcov as [-> | ?]; [| done].
      congruence.
Qed.

(** ** The batch *)

Lemma lookups_names (env : option string) (net : provider) (names : list string) :
  forall hist, map fst (lookups env net hist names) = names.
Proof. induction names as [| name names IH]; intros hist; simpl; [done | by rewrite IH]. Qed.

Lemma launch_checks (env : option string) (net : provider) (names : list string) :
  forall w,
    launch net (map (fun name => checkCustomerAgainstSdn env name (Some true)) names) w =
    (map (check_task env) (lookups env net (calls w) names),
     {| calls := (calls w ++
                  map (fun name => checkCustomerAgainstSdn_request env name true) names)%list;
        console := console w |}).
Proof.
  induction names as [| name names IH]; intros w.
  - simpl. rewrite app_nil_r. by destruct w.
  - cbn [map launch lookups]. rewrite check_fetch. cbn [advance default].
    rewrite IH. cbn [issue calls console]. by rewrite <- app_assoc.
Qed.

Lemma entries_exist (env : option string) (l : list (string * fetch_outcome)) :
  exists rs, Forall2 (entry_of env) l rs.
Proof.
  induction l as [| [name o] l (rs & IH)]; [by exists [] |].
  destruct (check_answer env name (Some true) o) as (r & Hr & _).
  exists (r :: rs). by constructor.
Qed.

Lemma tasks_yield (env : option string) (l : list (string * fetch_outcome))
  (rs : list CustomerCheckResponse.t) :
  Forall2 (entry_of env) l rs -> Forall2 yields (map (check_task env) l) rs.
Proof.
  induction 1 as [| [name o] r l rs Hr _ IH]; simpl; constructor; [| done].
  right. eexists. split; [reflexivity |].
  rewrite check_continuation. by rewrite Hr.
Qed.

Lemma check_task_suspended (env : option string) (l : list (string * fetch_outcome))
  (i : nat) (q : prog CustomerCheckResponse.t) :
  map (check_task env) l !! i = Some (Suspended q) -> i < length l.
Proof. intros Hi. apply lookup_lt_Some in Hi. by rewrite length_map in Hi. Qed.

Lemma Promise_all_checks (env : option string) (net : provider)
  (names : list string) (w : world) :
  exists rs,
    Forall2 (entry_of env) (lookups env net (calls w) names) rs /\
    forall order,
      (forall c w',
          Promise_all net order
            (map (fun name => checkCustomerAgainstSdn env name (Some true)) names) w
          = Some (c, w') ->
          c = Returned rs /\
          calls w' = (calls w ++
            map (fun name => checkCustomerAgainstSdn_request env name true) names)%list) /\
      (complete_order (length names) order ->
       is_Some (Promise_all net order
            (map (fun name => checkCustomerAgainstSdn env name (Some true)) names) w)).
Proof.
  destruct (entries_exist env (lookups env net (calls w) names)) as (rs & Hrs).
  exists rs. split; [done |]. intros order.
  unfold Promise_all. rewrite launch_checks.
  pose proof (tasks_yield env _ rs Hrs) as Hy. split.
  - intros c w' Hs. by destruct (settle_sound net order _ rs _ c w' Hy Hs) as [-> ->].
  - intros Hcov. apply (settle_complete net order _ rs); [done |].
    intros i q Hi. apply Hcov. apply check_task_suspended in Hi.
    by rewrite <- (lookups_names env net names (calls w)), length_map.
Qed.

Lemma bulk_runs (env : option string) (net : provider) (names : list string)
  (w : world) :
  names <> [] ->
  exists rs,
    Forall2 (entry_of env) (lookups env net (calls w) names) rs /\
    forall order,
      (forall c w',
          bulkCheckSdn env net order (ArgNames names) w = Some (c, w') ->
          exists r, c = Returned r /\ reports rs r /\
            calls w' = (calls w ++
              map (fun name => checkCustomerAgainstSdn_request env name true) names)%list) /\
      (complete_order (length names) order ->
       is_Some (bulkCheckSdn env net order (ArgNames names) w)).
Proof.
  intros Hne.
  destruct (Promise_all_checks env net names w) as (rs & Hrs & Hall).
  exists rs. split; [done |]. intros order.
  destruct (Hall order) as [Hsound Hcompl].
  unfold bulkCheckSdn. destruct names as [| name names]; [done |].
  cbn [Array_isArray_arg elements_of negb orb length Nat.eqb].
  unfold async_try_catch, mbind, async_bind, mret, async_ret.
  destruct (Promise_all net order _ w) as [[[rs' | e] w1] |] eqn:HP.
  - destruct (Hsound _ _ eq_refl) as [[= ->] Hc]. split.
    + intros c w' [= <- <-]. eexists. split; [done |]. by repeat split.
    + done.
  - by destruct (Hsound _ _ eq_refl) as [? _].
  - split; [done |]. intros Hcov. by destruct (Hcompl Hcov).
Qed.

Lemma entry_trichotomy (env : option string) (no : string * fetch_outcome)
  (r : CustomerCheckResponse.t) :
  entry_of env no r ->
  CustomerCheckResponse.customerName r = no.1 /\
  ((CustomerCheckResponse.isSDN r = Some true /\
    CustomerCheckResponse.riskLevel r = "CRITICAL") \/
   (CustomerCheckResponse.isSDN r = Some false /\
    CustomerCheckResponse.riskLevel r = "CLEAR") \/
   (CustomerCheckResponse.isSDN r = None /\
    CustomerCheckResponse.riskLevel r = "UNKNOWN")).
Proof.
  unfold entry_of. destruct no as [name o]. simpl. intros Hr.
  destruct (check_answer env name (Some true) o) as (r' & Hr' & Hn & Hcase).
  rewrite Hr in Hr'. injection Hr' as <-. split; [done |].
  destruct (lookup_failed o).
  - right; right. by destruct Hcase as (? & ? & _).
  - destruct Hcase as ([|] & ? & ? & _); [by left | right; by left].
Qed.

Lemma tally_total (rs : list CustomerCheckResponse.t) :
  Forall (fun r =>
    (CustomerCheckResponse.isSDN r = Some true /\
     CustomerCheckResponse.riskLevel r = "CRITICAL") \/
    (CustomerCheckResponse.isSDN r = Some false /\
     CustomerCheckResponse.riskLevel r = "CLEAR") \/
    (CustomerCheckResponse.isSDN r = None /\
     CustomerCheckResponse.riskLevel r = "UNKNOWN")) rs ->
  length (List.filter (fun e => is_true (CustomerCheckResponse.isSDN e)) rs) +
  length (List.filter
    (fun e => String.eqb (CustomerCheckResponse.riskLevel e) "CLEAR") rs) +
  length (List.filter
    (fun e => String.eqb (CustomerCheckResponse.riskLevel e) "UNKNOWN") rs)
  = length rs.
Proof.
  induction 1 as [| r rs Hr _ IH]; [done |].
  simpl. destruct Hr as [[-> ->] | [[-> ->] | [-> ->]]]; simpl; lia.
Qed.

Lemma entries_classified (env : option string) (l : list (string * fetch_outcome))
  (rs : list CustomerCheckResponse.t) :
  Forall2 (entry_of env) l rs ->
  Forall (fun r =>
    (CustomerCheckResponse.isSDN r = Some true /\
     CustomerCheckResponse.riskLevel r = "CRITICAL") \/
    (CustomerCheckResponse.isSDN r = Some false /\
     CustomerCheckResponse.riskLevel r = "CLEAR") \/
    (CustomerCheckResponse.isSDN r = None /\
     CustomerCheckResponse.riskLevel r = "UNKNOWN")) rs.
Proof.
  induction 1 as [| no r l rs Hr _ IH]; constructor; [| done].
  by destruct (entry_trichotomy env no r Hr).
Qed.

Lemma entry_failed (env : option string) (no : string * fetch_outcome)
  (r : CustomerCheckResponse.t) :
  entry_of env no r ->
  if lookup_failed no.2 then
    CustomerCheckResponse.isSDN r = None /\
    CustomerCheckResponse.riskLevel r = "UNKNOWN" /\
    is_Some (CustomerCheckResponse.error r)
  else
    CustomerCheckResponse.isSDN r <> None /\
    CustomerCheckResponse.riskLevel r <> "UNKNOWN" /\
    CustomerCheckResponse.error r = None.
Proof.
  unfold entry_of. destruct no as [name o]. simpl. intros Hr.
  destruct (check_answer env name (Some true) o) as (r' & Hr' & _ & Hcase).
  rewrite Hr in Hr'. injection Hr' as <-.
  destruct (lookup_failed o).
  - by destruct Hcase as (? & ? & _ & _ & ?).
  - destruct Hcase as (b & -> & -> & ->). by destruct b.
Qed.

Lemma tally_all_unknown (rs : list CustomerCheckResponse.t) :
  Forall (fun r => CustomerCheckResponse.isSDN r = None /\
                   CustomerCheckResponse.riskLevel r = "UNKNOWN") rs ->
  length (List.filter (fun e => is_true (CustomerCheckResponse.isSDN e)) rs) = 0 /\
  length (List.filter
    (fun e => String.eqb (CustomerCheckResponse.riskLevel e) "CLEAR") rs) = 0 /\
  length (List.filter
    (fun e => String.eqb (CustomerCheckResponse.riskLevel e) "UNKNOWN") rs)
  = length rs.
Proof.
  induction 1 as [| r rs [Hf Hl] _ (IH1 & IH2 & IH3)]; [done |].
  simpl. rewrite Hf, Hl. simpl. by rewrite IH1, IH2, IH3.
Qed.

Lemma reports_unique (rs : list CustomerCheckResponse.t)
  (r1 r2 : BulkCheckResponse.t) :
  reports rs r1 -> reports rs r2 -> r1 = r2.
Proof.
  destruct r1 as [s1 t1 f1 l1 [c1 k1 u1] e1], r2 as [s2 t2 f2 l2 [c2 k2 u2] e2].
  unfold reports. simpl. intros (-> & -> & -> & -> & -> & -> & -> & ->).
  by intros (-> & -> & -> & -> & -> & -> & -> & ->).
Qed.

Lemma complete_seq (n : nat) : complete_order n (seq 0 n).
Proof. intros i Hi. apply elem_of_seq. lia. Qed.

Lemma lookups_length (env : option string) (net : provider)
  (hist : list request) (names : list string) :
  length (lookups env net hist names) = length names.
Proof. by rewrite <- (lookups_names env net names hist) at 2; rewrite length_map. Qed.

Lemma arg_cases (arg : names_arg) :
  elements_of arg = [] \/ exists names, arg = ArgNames names /\ names <> [].
Proof.
  destruct arg as [| | | | | | [| name names]]; try by left.
  right. by eexists.
Qed.

Lemma bulk_invalid (env : option string) (net : provider) (order : list nat)
  (arg : names_arg) (w : world) :
  elements_of arg = [] ->
  exists r,
    bulkCheckSdn env net order arg w = Some (Returned r, w) /\
    BulkCheckResponse.success r = false /\
    is_Some (BulkCheckResponse.error r) /\
    BulkCheckResponse.results r = [].
Proof.
  intros He. unfold bulkCheckSdn. rewrite He.
  rewrite orb_true_r. eexists. split; [reflexivity |]. by repeat split.
Qed.

(** ** The text of an integer *)

Lemma digit_value_char (d : N) :
  (d < 10)%N -> digit_value (pretty_N_char d) = Some d.
Proof.
  intros Hd.
  assert (d = 0 \/ d = 1 \/ d = 2 \/ d = 3 \/ d = 4 \/ d = 5 \/ d = 6 \/
          d = 7 \/ d = 8 \/ d = 9)%N as Hcases by lia.
  repeat (destruct Hcases as [-> | Hcases]; [reflexivity |]).
  by subst d.
Qed.

Lemma digits_value_pretty (x : N) :
  forall s, digits_value 0 (pretty_N_go x s) = digits_value x s.
Proof.
  induction (N.lt_wf_0 x) as [x _ IH]. intros s.
  destruct (decide (x = 0)%N) as [-> | Hx]; [by rewrite pretty_N_go_0 |].
  rewrite pretty_N_go_step by lia.
  rewrite IH by (apply N.div_lt; lia).
  cbn [digits_value]. rewrite digit_value_char by (apply N.mod_lt; lia).
  f_equal. pose proof (N.div_mod x 10). lia.
Qed.

(** The numeral of a positive number starts with a digit from 1 to 9. *)
Lemma pretty_N_go_head (x : N) :
  forall s, (0 < x)%N ->
    exists d rest, (0 < d < 10)%N /\
                   pretty_N_go x s = String (pretty_N_char d) rest.
Proof.
  induction (N.lt_wf_0 x) as [x _ IH]. intros s Hx.
  rewrite pretty_N_go_step by done.
  destruct (decide (x < 10)%N) as [Hlt | Hge].
  - rewrite N.div_small, pretty_N_go_0, N.mod_small by done.
    exists x, s. split; [lia | done].
  - apply IH; [apply N.div_lt; lia |].
    apply N.div_str_pos. lia.
Qed.

Lemma leading_digit (d : N) :
  (0 < d < 10)%N ->
  Ascii.eqb (pretty_N_char d) "0" = false /\
  Ascii.eqb (pretty_N_char d) "-" = false.
Proof.
  intros Hd.
  assert (d = 1 \/ d = 2 \/ d = 3 \/ d = 4 \/ d = 5 \/ d = 6 \/
          d = 7 \/ d = 8 \/ d = 9)%N as Hcases by lia.
  repeat (destruct Hcases as [-> | Hcases]; [by split |]).
  by subst d.
Qed.

Lemma natural_value_pretty (p : positive) :
  natural_value (pretty_N_go (N.pos p) "") = Some (N.pos p).
Proof.
  destruct (pretty_N_go_head (N.pos p) "") as (d & rest & Hd & Hs); [lia |].
  destruct (leading_digit d Hd) as [H0 _].
  unfold natural_value. rewrite Hs. cbn [String.eqb]. rewrite H0.
  rewrite <- Hs. by rewrite digits_value_pretty.
Qed.

(** Reading the text of an integer as a decimal numeral gives the integer
    back. *)
Lemma decimal_value_pretty (z : Z) : decimal_value (pretty z) = Some z.
Proof.
  destruct z as [| p | p]; [reflexivity | |].
  - change (pretty (Z.pos p)) with (pretty_N_go (N.pos p) "").
    destruct (pretty_N_go_head (N.pos p) "") as (d & rest & Hd & Hs); [lia |].
    destruct (leading_digit d Hd) as [_ Hm].
    unfold decimal_value. rewrite Hs, Hm, <- Hs.
    by rewrite natural_value_pretty.
  - change (pretty (Z.neg p)) with (String "-" (pretty_N_go (N.pos p) "")).
    unfold decimal_value. cbn [Ascii.eqb Bool.eqb].
    by rewrite natural_value_pretty.
Qed.

Lemma pretty_N_go_length (x : N) :
  forall s, String.length s <= String.length (pretty_N_go x s).
Proof.
  induction (N.lt_wf_0 x) as [x _ IH]. intros s.
  destruct (decide (x = 0)%N) as [-> | Hx]; [by rewrite pretty_N_go_0 |].
  rewrite pretty_N_go_step by lia.
  etrans; [| apply IH; apply N.div_lt; lia]. simpl. lia.
Qed.

Lemma Number_toString_nonempty (n : number) :
  is_number n = true -> Number_toString n <> "".
Proof.
  destruct n as [z | text | | [|]]; cbn [Number_toString is_number]; try done.
  - intros _ Hs. pose proof (decimal_value_pretty z) as Hz.
    rewrite Hs in Hz. discriminate.
  - intros Ht ->. discriminate.
Qed.

(** ** The claims *)

(** C1. For every customer name (and fuzzy flag), the single-name check
    returns a result for the name that is determined by how the lookup
    settles: a rejected fetch or a non-2xx response gives [isSDN = null],
    risk [UNKNOWN] and the error text; a 2xx response with the empty array
    gives [isSDN = false] and risk [CLEAR]; a 2xx response with a non-empty
    array of k records gives [isSDN = true], risk [CRITICAL],
    [matchCount = k] and [matches] the whole array. *)
Theorem checkCustomerAgainstSdn_classifies (env : option string) (net : provider)
  (name : string) (fz : option bool) (w : world) :
  let req := checkCustomerAgainstSdn_request env name (default true fz) in
  exists r w',
    run net (checkCustomerAgainstSdn env name fz) w = (Returned r, w') /\
    calls w' = (calls w ++ [req])%list /\
    CustomerCheckResponse.customerName r = name /\
    match net (calls w) req with
    | inl e =>
        CustomerCheckResponse.isSDN r = None /\
        CustomerCheckResponse.riskLevel r = "UNKNOWN" /\
        CustomerCheckResponse.error r = Some (error_text e)
    | inr resp =>
        if ok resp then
          match body resp with
          | inr (JArr []) =>
              CustomerCheckResponse.isSDN r = Some false /\
              CustomerCheckResponse.riskLevel r = "CLEAR" /\
              CustomerCheckResponse.matchCount r = 0 /\
              CustomerCheckResponse.error r = None
          | inr (JArr (first :: more)) =>
              CustomerCheckResponse.isSDN r = Some true /\
              CustomerCheckResponse.riskLevel r = "CRITICAL" /\
              CustomerCheckResponse.matchCount r = length (first :: more) /\
              CustomerCheckResponse.matches r = JArr (first :: more) /\
              CustomerCheckResponse.error r = None
          | _ => True
          end
        else
          CustomerCheckResponse.isSDN r = None /\
          CustomerCheckResponse.riskLevel r = "UNKNOWN" /\
          CustomerCheckResponse.error r =
            Some ("SDN check failed: " +:+ statusText resp)
    end.
Proof.
  intros req. rewrite check_fetch. cbn [run]. fold req.
  by_outcome (net (calls w) req).
  - eexists _, _. by repeat split.
  - eexists _, _. by repeat split.
  - destruct v as [| | | | [| first more] |]; eexists _, _; by repeat split.
  - eexists _, _. by repeat split.
Qed.

(** C4 (the code departs from it). A 2xx response whose JSON body is an
    object, or a string, is returned by the lookup with [count = 0] but with
    the body itself in [data], not the empty sequence; for the string body
    [count] is not the length of [data]. *)
Theorem getSdnData_keeps_non_array_body :
  fst (run object_provider (getSdnData None (Some "Jane Doe") None None) empty_world)
  = Returned {| SdnDataResponse.success := true;
                SdnDataResponse.data := JObj [("message", JStr "rate limited")];
                SdnDataResponse.count := 0;
                SdnDataResponse.error := None |} /\
  fst (run string_provider (getSdnData None (Some "Jane Doe") None None) empty_world)
  = Returned {| SdnDataResponse.success := true;
                SdnDataResponse.data := JStr "down";
                SdnDataResponse.count := 0;
                SdnDataResponse.error := None |} /\
  dot_length (JStr "down") = 4.
Proof. repeat split. Qed.

(** C9. For every customer name, when the provider answers 2xx with a JSON
    body that is not an array, the check returns [isSDN = false], risk
    [CLEAR], [matchCount = 0] and no error, and its [matches] field is the
    body as received, which is not the empty sequence. *)
Theorem checkCustomerAgainstSdn_non_array_body (env : option string)
  (net : provider) (name : string) (fz : option bool) (w : world)
  (resp : response) (v : json) :
  let req := checkCustomerAgainstSdn_request env name (default true fz) in
  net (calls w) req = inr resp ->
  ok resp = true ->
  body resp = inr v ->
  Array_isArray v = false ->
  run net (checkCustomerAgainstSdn env name fz) w =
    (Returned {| CustomerCheckResponse.customerName := name;
                 CustomerCheckResponse.isSDN := Some false;
                 CustomerCheckResponse.matchCount := 0;
                 CustomerCheckResponse.matches := v;
                 CustomerCheckResponse.riskLevel := "CLEAR";
                 CustomerCheckResponse.error := None |},
     issue req w) /\
  v <> JArr [].
Proof.
  intros req Hnet Hok Hbody Hv. split.
  - rewrite check_fetch. cbn [run]. fold req. rewrite Hnet. cbn.
    rewrite Hok. cbn. unfold response_json. rewrite Hbody. cbn.
    rewrite Hv. reflexivity.
  - intros ->. discriminate.
Qed.

Lemma checkCustomerAgainstSdn_non_array_body_witness :
  run object_provider (checkCustomerAgainstSdn None "Jane Doe" None) empty_world =
    (Returned {| CustomerCheckResponse.customerName := "Jane Doe";
                 CustomerCheckResponse.isSDN := Some false;
                 CustomerCheckResponse.matchCount := 0;
                 CustomerCheckResponse.matches := JObj [("message", JStr "rate limited")];
                 CustomerCheckResponse.riskLevel := "CLEAR";
                 CustomerCheckResponse.error := None |},
     issue (checkCustomerAgainstSdn_request None "Jane Doe" true) empty_world) /\
  JObj [("message", JStr "rate limited")] <> JArr [].
Proof.
  apply (checkCustomerAgainstSdn_non_array_body None object_provider "Jane Doe"
           None empty_world
           {| status := 200; statusText := "OK";
              body := inr (JObj [("message", JStr "rate limited")]) |});
    reflexivity.
Defined.

(** C10. For every lookup, the request that goes out is the one built from
    the arguments, and it carries a [limit] parameter exactly when the
    limit (100 when the argument is absent) is truthy: for a numeric limit
    that is exactly when it is not zero, and [NaN] is left out as zero is.
    The parameter then occurs once and its value is the text of the limit:
    for an integer limit the decimal numeral that denotes it, for any other
    value the text the runtime gives it.  A limit of 0 is never sent. *)
Theorem getSdnData_limit_param (env : option string) (net : provider)
  (name country : option string) (limit : option number) (w : world) :
  let l := default (Integer 100) limit in
  let req := getSdnData_request env name country l in
  is_number l = true ->
  calls (snd (run net (getSdnData env name country limit) w)) = (calls w ++ [req])%list /\
  List.filter (fun kv => String.eqb kv.1 "limit") (query req) =
    (if truthy_num l then [("limit", Number_toString l)] else []) /\
  get (query req) "limit" =
    (if truthy_num l then Some (Number_toString l) else None) /\
  (truthy_num l = false <-> l = Integer 0 \/ l = NaN) /\
  match l with
  | Integer z =>
      decimal_value (Number_toString l) = Some z /\
      (z = 0%Z -> get (query req) "limit" = None) /\
      (z <> 0%Z -> exists text, get (query req) "limit" = Some text /\
                                decimal_value text = Some z)
  | Finite text => get (query req) "limit" = Some text
  | NaN => get (query req) "limit" = None
  | Infinity negative =>
      get (query req) "limit" = Some (if negative then "-Infinity" else "Infinity")
  end.
Proof.
  intros l req Hnum.
  assert (get (query req) "limit" =
          (if truthy_num l then Some (Number_toString l) else None)) as Hget.
  { subst req. unfold getSdnData_request.
    destruct (truthy name), (truthy country), (truthy_num l); reflexivity. }
  split; [| split; [| split; [| split]]].
  - unfold getSdnData. fold l. fold req. cbn.
    destruct (net (calls w) req) as [e | resp]; cbn; [done |].
    destruct (ok resp); cbn; [| done].
    unfold response_json. by destruct (body resp).
  - subst req. unfold getSdnData_request.
    destruct (truthy name), (truthy country), (truthy_num l); reflexivity.
  - exact Hget.
  - destruct l as [z | text | | negative]; cbn [truthy_num].
    + destruct (Z.eqb_spec z 0) as [-> | Hz]; cbn.
      * split; [by left | done].
      * split; [done |]. intros [[= ->] | [=]]. done.
    + split; [done | by intros [|]].
    + split; [by right | done].
    + split; [done | by intros [|]].
  - rewrite Hget. destruct l as [z | text | | negative]; cbn [truthy_num Number_toString].
    + split; [apply decimal_value_pretty |]. split.
      * intros ->. reflexivity.
      * intros Hz. destruct (Z.eqb_spec z 0) as [-> | _]; [done |]. cbn.
        eexists. split; [reflexivity | apply decimal_value_pretty].
    + reflexivity.
    + reflexivity.
    + reflexivity.
Qed.

Lemma getSdnData_limit_param_witness :
  is_number (default (Integer 100) (Some (Integer 25))) = true /\
  get (query (getSdnData_request None (Some "Jane Doe") None (Integer 25))) "limit"
    = Some "25" /\
  get (query (getSdnData_request None (Some "Jane Doe") None (Integer 0))) "limit"
    = None /\
  get (query (getSdnData_request None (Some "Jane Doe") None (Finite "1e+21"))) "limit"
    = Some "1e+21" /\
  get (query (getSdnData_request None (Some "Jane Doe") None (Integer 100))) "limit"
    = Some "100".
Proof.
  split; [reflexivity |].
  pose proof (getSdnData_limit_param None scenario_provider (Some "Jane Doe") None
                (Some (Integer 25)) empty_world eq_refl) as H25.
  pose proof (getSdnData_limit_param None scenario_provider (Some "Jane Doe") None
                (Some (Integer 0)) empty_world eq_refl) as H0.
  pose proof (getSdnData_limit_param None scenario_provider (Some "Jane Doe") None
                (Some (Finite "1e+21")) empty_world eq_refl) as Hbig.
  pose proof (getSdnData_limit_param None scenario_provider (Some "Jane Doe") None
                None empty_world eq_refl) as Hdefault.
  cbv zeta in H25, H0, Hbig, Hdefault. cbn [default] in H25, H0, Hbig, Hdefault.
  destruct H25 as (_ & _ & H25 & _), H0 as (_ & _ & H0 & _),
           Hbig as (_ & _ & Hbig & _), Hdefault as (_ & _ & Hdefault & _).
  split; [exact H25 |]. split; [exact H0 |]. split; [exact Hbig | exact Hdefault].
Defined.

(** C8 (amended). The check does not call the lookup: it issues one
    request of its own, which is never the request the lookup would issue
    for the name.  Whenever the provider settles the two requests the same
    way, the check returns the customer name, match flag, risk, match count
    and matches that the decision rule gives on the lookup result, and it
    carries an error exactly when that result does. *)
Theorem check_agrees_with_lookup (env : option string) (net : provider)
  (name : string) (fz : option bool) (w : world) :
  let req := checkCustomerAgainstSdn_request env name (default true fz) in
  let req' := getSdnData_request env (Some name) None (Integer 100) in
  net (calls w) req = net (calls w) req' ->
  req <> req' /\
  calls (snd (run net (checkCustomerAgainstSdn env name fz) w)) = (calls w ++ [req])%list /\
  exists rc rd,
    fst (run net (checkCustomerAgainstSdn env name fz) w) = Returned rc /\
    delegated_check env net name w = Returned rd /\
    CustomerCheckResponse.customerName rc = CustomerCheckResponse.customerName rd /\
    CustomerCheckResponse.isSDN rc = CustomerCheckResponse.isSDN rd /\
    CustomerCheckResponse.riskLevel rc = CustomerCheckResponse.riskLevel rd /\
    CustomerCheckResponse.matchCount rc = CustomerCheckResponse.matchCount rd /\
    CustomerCheckResponse.matches rc = CustomerCheckResponse.matches rd /\
    (CustomerCheckResponse.error rc = None <-> CustomerCheckResponse.error rd = None).
Proof.
  intros req req' Hsame. split; [| split].
  - intros Heq. by apply (f_equal headers) in Heq.
  - rewrite check_fetch. cbn [run]. fold req.
    destruct (net (calls w) req) as [e | resp]; cbn; [done |].
    destruct (ok resp); cbn; [| done].
    unfold response_json. by destruct (body resp).
  - unfold delegated_check, getSdnData. cbn [default]. fold req'.
    rewrite check_fetch. cbn [run fst try_catch mbind prog_bind bind fetch].
    fold req. rewrite <- Hsame.
    by_outcome (net (calls w) req).
    + eexists _, _. by repeat split.
    + eexists _, _. by repeat split.
    + destruct v as [| | | | [| first more] |]; eexists _, _; by repeat split.
    + eexists _, _. by repeat split.
Qed.

Lemma check_agrees_with_lookup_witness :
  let req := checkCustomerAgainstSdn_request None "Known Sanctioned Entity" true in
  let req' := getSdnData_request None (Some "Known Sanctioned Entity") None (Integer 100) in
  scenario_provider [] req = scenario_provider [] req' /\
  (req <> req' /\
   calls (snd (run scenario_provider
     (checkCustomerAgainstSdn None "Known Sanctioned Entity" None) empty_world))
   = ([] ++ [req])%list /\
   exists rc rd,
    fst (run scenario_provider
      (checkCustomerAgainstSdn None "Known Sanctioned Entity" None) empty_world)
    = Returned rc /\
    delegated_check None scenario_provider "Known Sanctioned Entity" empty_world
    = Returned rd /\
    CustomerCheckResponse.customerName rc = CustomerCheckResponse.customerName rd /\
    CustomerCheckResponse.isSDN rc = CustomerCheckResponse.isSDN rd /\
    CustomerCheckResponse.riskLevel rc = CustomerCheckResponse.riskLevel rd /\
    CustomerCheckResponse.matchCount rc = CustomerCheckResponse.matchCount rd /\
    CustomerCheckResponse.matches rc = CustomerCheckResponse.matches rd /\
    (CustomerCheckResponse.error rc = None <-> CustomerCheckResponse.error rd = None)).
Proof.
  split.
  - reflexivity.
  - apply (check_agrees_with_lookup None scenario_provider
             "Known Sanctioned Entity" None empty_world).
    reflexivity.
Defined.

(** C8 as stated fails: against a provider that matches approximately only
    when [fuzzy=true] is requested, the check flags the name as CRITICAL
    with one match, while the lookup by that name followed by the decision
    rule clears it; so the two do not agree for every provider. *)
Lemma check_is_not_delegation :
  classification_of
    (fst (run fuzzy_provider
       (checkCustomerAgainstSdn None "Known Sanctoned Entity" (Some true)) empty_world))
  = Some (Some true, "CRITICAL", 1) /\
  classification_of
    (delegated_check None fuzzy_provider "Known Sanctoned Entity" empty_world)
  = Some (Some false, "CLEAR", 0) /\
  ~ (forall env net name fz w,
       classification_of (fst (run net (checkCustomerAgainstSdn env name fz) w))
       = classification_of (delegated_check env net name w)).
Proof.
  split; [reflexivity | split; [reflexivity |]].
  intros H.
  specialize (H None fuzzy_provider "Known Sanctoned Entity" (Some true) empty_world).
  discriminate H.
Qed.

(** C2. For every non-empty sequence of names, there is one response that
    the batch returns under every completion order in which each lookup
    gets its answer; it has [totalChecked] and the length of [results]
    equal to the number of names, and the entry at each index carries the
    name at that index. *)
Theorem bulkCheckSdn_order_preserved (env : option string) (net : provider)
  (names : list string) (w : world) :
  names <> [] ->
  exists r,
    (forall order, complete_order (length names) order ->
       exists w', bulkCheckSdn env net order (ArgNames names) w = Some (Returned r, w')) /\
    BulkCheckResponse.totalChecked r = length names /\
    length (BulkCheckResponse.results r) = length names /\
    forall i name,
      names !! i = Some name ->
      CustomerCheckResponse.customerName <$> BulkCheckResponse.results r !! i
      = Some name.
Proof.
  intros Hne.
  destruct (bulk_runs env net names w Hne) as (rs & Hrs & Hall).
  destruct (Hall (seq 0 (length names))) as [Hs0 Hc0].
  destruct (Hc0 (complete_seq _)) as [[c0 w0] H0].
  destruct (Hs0 _ _ H0) as (r0 & -> & Hrep0 & _).
  assert (length rs = length names) as Hlen.
  { by rewrite <- (Forall2_length _ _ _ Hrs), lookups_length. }
  exists r0. split; [| split; [| split]].
  - intros order Hcov. destruct (Hall order) as [Hs Hc].
    destruct (Hc Hcov) as [[c w'] H]. destruct (Hs _ _ H) as (r & -> & Hrep & _).
    exists w'. by rewrite (reports_unique rs r0 r Hrep0 Hrep).
  - destruct Hrep0 as (_ & _ & -> & _). done.
  - destruct Hrep0 as (_ & -> & _). done.
  - intros i name Hi. destruct Hrep0 as (_ & -> & _).
    rewrite <- (lookups_names env net names (calls w)) in Hi.
    rewrite list_lookup_fmap in Hi.
    destruct (lookups env net (calls w) names !! i) as [no |] eqn:Hno; [| done].
    injection Hi as <-.
    destruct (Forall2_lookup_l _ _ _ _ _ Hrs Hno) as (r & -> & Hr).
    simpl. by destruct (entry_trichotomy env no r Hr) as [-> _].
Qed.

Lemma bulkCheckSdn_order_preserved_witness :
  scenario_names <> [] /\
  exists r,
    (forall order, complete_order (length scenario_names) order ->
       exists w',
         bulkCheckSdn None scenario_provider order (ArgNames scenario_names) empty_world
         = Some (Returned r, w')) /\
    BulkCheckResponse.totalChecked r = length scenario_names /\
    length (BulkCheckResponse.results r) = length scenario_names /\
    forall i name,
      scenario_names !! i = Some name ->
      CustomerCheckResponse.customerName <$> BulkCheckResponse.results r !! i
      = Some name.
Proof.
  split.
  - discriminate.
  - apply (bulkCheckSdn_order_preserved None scenario_provider scenario_names
             empty_world).
    discriminate.
Defined.

(** C3. For every response returned by the batch with [success = true],
    [flaggedCount] is the number of entries whose [isSDN] is true and equals
    [summary.critical]; [summary.clear] and [summary.unknown] are the
    numbers of entries with risk CLEAR and UNKNOWN; and the three tallies
    add up to [totalChecked]. *)
Theorem bulkCheckSdn_tallies (env : option string) (net : provider)
  (order : list nat) (arg : names_arg) (w w' : world) (r : BulkCheckResponse.t) :
  bulkCheckSdn env net order arg w = Some (Returned r, w') ->
  BulkCheckResponse.success r = true ->
  let s := BulkCheckResponse.summary r in
  BulkCheckSummary.critical s + BulkCheckSummary.clear s + BulkCheckSummary.unknown s
    = BulkCheckResponse.totalChecked r /\
  BulkCheckResponse.flaggedCount r = BulkCheckSummary.critical s /\
  BulkCheckResponse.flaggedCount r =
    length (List.filter (fun e => is_true (CustomerCheckResponse.isSDN e))
              (BulkCheckResponse.results r)) /\
  BulkCheckSummary.clear s =
    length (List.filter
      (fun e => String.eqb (CustomerCheckResponse.riskLevel e) "CLEAR")
      (BulkCheckResponse.results r)) /\
  BulkCheckSummary.unknown s =
    length (List.filter
      (fun e => String.eqb (CustomerCheckResponse.riskLevel e) "UNKNOWN")
      (BulkCheckResponse.results r)).
Proof.
  intros Hrun Hok s. subst s.
  destruct (arg_cases arg) as [He | (names & -> & Hne)].
  - destruct (bulk_invalid env net order arg w He) as (r' & Hr' & Hfail & _).
    rewrite Hr' in Hrun. injection Hrun as -> _. congruence.
  - destruct (bulk_runs env net names w Hne) as (rs & Hrs & Hall).
    destruct (Hall order) as [Hs _].
    destruct (Hs _ _ Hrun) as (r' & [= <-] & Hrep & _).
    destruct Hrep as (_ & -> & -> & -> & -> & -> & -> & _).
    repeat split. apply tally_total. by eapply entries_classified.
Qed.

Lemma bulkCheckSdn_tallies_witness :
  exists r w',
    bulkCheckSdn None scenario_provider [1; 2; 0] (ArgNames scenario_names) empty_world
    = Some (Returned r, w') /\
    BulkCheckResponse.success r = true /\
    BulkCheckResponse.summary r =
      {| BulkCheckSummary.critical := 1;
         BulkCheckSummary.clear := 2;
         BulkCheckSummary.unknown := 0 |} /\
    (BulkCheckSummary.critical (BulkCheckResponse.summary r) +
     BulkCheckSummary.clear (BulkCheckResponse.summary r) +
     BulkCheckSummary.unknown (BulkCheckResponse.summary r)
     = BulkCheckResponse.totalChecked r /\
     BulkCheckResponse.flaggedCount r =
       BulkCheckSummary.critical (BulkCheckResponse.summary r) /\
     BulkCheckResponse.flaggedCount r =
       length (List.filter (fun e => is_true (CustomerCheckResponse.isSDN e))
                 (BulkCheckResponse.results r)) /\
     BulkCheckSummary.clear (BulkCheckResponse.summary r) =
       length (List.filter
         (fun e => String.eqb (CustomerCheckResponse.riskLevel e) "CLEAR")
         (BulkCheckResponse.results r)) /\
     BulkCheckSummary.unknown (BulkCheckResponse.summary r) =
       length (List.filter
         (fun e => String.eqb (CustomerCheckResponse.riskLevel e) "UNKNOWN")
         (BulkCheckResponse.results r))).
Proof.
  eexists _, _. split; [reflexivity |]. split; [reflexivity |].
  split; [reflexivity |].
  eapply (bulkCheckSdn_tallies None scenario_provider [1; 2; 0]
            (ArgNames scenario_names) empty_world); reflexivity.
Defined.

(** C5. For every argument that is not an array or is the empty array, the
    batch returns at once the validation failure, with the world as it was:
    no request is issued and no check is started, whatever the provider and
    the completion order. *)
Theorem bulkCheckSdn_rejects_invalid_input (env : option string) (net : provider)
  (order : list nat) (arg : names_arg) (w : world) :
  Array_isArray_arg arg = false \/ arg = ArgNames [] ->
  bulkCheckSdn env net order arg w =
    Some (Returned
            {| BulkCheckResponse.success := false;
               BulkCheckResponse.error := Some "customerNames must be a non-empty array";
               BulkCheckResponse.results := [];
               BulkCheckResponse.totalChecked := 0;
               BulkCheckResponse.flaggedCount := 0;
               BulkCheckResponse.summary :=
                 {| BulkCheckSummary.critical := 0;
                    BulkCheckSummary.clear := 0;
                    BulkCheckSummary.unknown := 0 |} |},
          w).
Proof.
  intros [Hna | ->]; [| reflexivity].
  unfold bulkCheckSdn. by rewrite Hna.
Qed.

Lemma bulkCheckSdn_rejects_invalid_input_witness :
  (Array_isArray_arg ArgNull = false \/ ArgNull = ArgNames []) /\
  bulkCheckSdn None scenario_provider [0] ArgNull empty_world =
    Some (Returned
            {| BulkCheckResponse.success := false;
               BulkCheckResponse.error := Some "customerNames must be a non-empty array";
               BulkCheckResponse.results := [];
               BulkCheckResponse.totalChecked := 0;
               BulkCheckResponse.flaggedCount := 0;
               BulkCheckResponse.summary :=
                 {| BulkCheckSummary.critical := 0;
                    BulkCheckSummary.clear := 0;
                    BulkCheckSummary.unknown := 0 |} |},
          empty_world) /\
  bulkCheckSdn None scenario_provider [0] (ArgNames []) empty_world =
    bulkCheckSdn None scenario_provider [0] ArgNull empty_world.
Proof.
  split; [by left |]. split.
  - apply (bulkCheckSdn_rejects_invalid_input None scenario_provider [0]
             ArgNull empty_world). by left.
  - reflexivity.
Defined.

(** C6. For every non-empty array of names and every completion order in
    which each lookup gets its answer, the batch returns with
    [success = true]; each entry is what the check of its own name returns
    for the outcome of its own lookup, so it is [isSDN = null] with risk
    UNKNOWN when that lookup failed and is neither when it did not; and when
    every lookup failed the summary is 0 critical, 0 clear and n unknown. *)
Theorem bulkCheckSdn_partial_failure (env : option string) (net : provider)
  (order : list nat) (names : list string) (w : world) :
  names <> [] ->
  complete_order (length names) order ->
  exists r w',
    bulkCheckSdn env net order (ArgNames names) w = Some (Returned r, w') /\
    BulkCheckResponse.success r = true /\
    Forall2
      (fun no e =>
         entry_of env no e /\
         if lookup_failed no.2 then
           CustomerCheckResponse.isSDN e = None /\
           CustomerCheckResponse.riskLevel e = "UNKNOWN"
         else
           CustomerCheckResponse.isSDN e <> None /\
           CustomerCheckResponse.riskLevel e <> "UNKNOWN")
      (lookups env net (calls w) names) (BulkCheckResponse.results r) /\
    (Forall (fun no => lookup_failed no.2 = true) (lookups env net (calls w) names) ->
     BulkCheckResponse.summary r =
       {| BulkCheckSummary.critical := 0;
          BulkCheckSummary.clear := 0;
          BulkCheckSummary.unknown := length names |}).
Proof.
  intros Hne Hcov.
  destruct (bulk_runs env net names w Hne) as (rs & Hrs & Hall).
  destruct (Hall order) as [Hs Hc].
  destruct (Hc Hcov) as [[c w'] H]. destruct (Hs _ _ H) as (r & -> & Hrep & _).
  exists r, w'. split; [done |].
  destruct Hrep as (Hsucc & Hres & _ & _ & Hcrit & Hclear & Hunk & _).
  split; [done |]. rewrite Hres. split.
  - eapply Forall2_impl; [exact Hrs |]. intros no e He. split; [done |].
    pose proof (entry_failed env no e He) as Hf.
    destruct (lookup_failed no.2); by destruct Hf as (? & ? & _).
  - intros Hall_failed.
    assert (Forall (fun e => CustomerCheckResponse.isSDN e = None /\
                             CustomerCheckResponse.riskLevel e = "UNKNOWN") rs) as Hu.
    { clear -Hrs Hall_failed.
      induction Hrs as [| no e l rs He _ IH]; [done |].
      apply Forall_cons in Hall_failed as [Hno Hl].
      constructor; [| by apply IH].
      pose proof (entry_failed env no e He) as Hf. rewrite Hno in Hf.
      by destruct Hf as (? & ? & _). }
    destruct (tally_all_unknown rs Hu) as (T1 & T2 & T3).
    destruct (BulkCheckResponse.summary r) as [c k u]. simpl in *.
    rewrite Hcrit, Hclear, Hunk, T1, T2, T3.
    by rewrite <- (Forall2_length _ _ _ Hrs), lookups_length.
Qed.

Lemma bulkCheckSdn_partial_failure_witness :
  scenario_names <> [] /\
  complete_order (length scenario_names) [2; 0; 1] /\
  exists r w',
    bulkCheckSdn None unreachable_provider [2; 0; 1] (ArgNames scenario_names)
      empty_world = Some (Returned r, w') /\
    BulkCheckResponse.success r = true /\
    Forall2
      (fun no e =>
         entry_of None no e /\
         if lookup_failed no.2 then
           CustomerCheckResponse.isSDN e = None /\
           CustomerCheckResponse.riskLevel e = "UNKNOWN"
         else
           CustomerCheckResponse.isSDN e <> None /\
           CustomerCheckResponse.riskLevel e <> "UNKNOWN")
      (lookups None unreachable_provider (calls empty_world) scenario_names)
      (BulkCheckResponse.results r) /\
    (Forall (fun no => lookup_failed no.2 = true)
       (lookups None unreachable_provider (calls empty_world) scenario_names) ->
     BulkCheckResponse.summary r =
       {| BulkCheckSummary.critical := 0;
          BulkCheckSummary.clear := 0;
          BulkCheckSummary.unknown := length scenario_names |}).
Proof.
  assert (complete_order (length scenario_names) [2; 0; 1]) as Hcov.
  { intros i Hi. simpl in Hi.
    destruct i as [| [| [| i]]]; [| | | lia]; repeat constructor. }
  split; [discriminate |]. split; [exact Hcov |].
  apply (bulkCheckSdn_partial_failure None unreachable_provider [2; 0; 1]
           scenario_names empty_world); [discriminate | exact Hcov].
Defined.

(** C7. None of the three operations lets an exception escape, for every
    input and every provider.  The lookup and the single check always
    return a result, whose [error] field holds the reason exactly when the
    lookup failed, together with [success = false] (and empty data) or risk
    UNKNOWN (and a null match flag).  The batch returns a result under
    every completion order in which each lookup gets its answer, a rejected
    input is marked [success = false] with an error, and the entry of every
    failed lookup carries risk UNKNOWN and an error; under any order at all,
    whatever the batch completes with is a returned result. *)
Theorem no_exception_escapes (env : option string) (net : provider) (w : world) :
  (forall name country limit,
     let o := net (calls w) (getSdnData_request env name country (default (Integer 100) limit)) in
     exists r w',
       run net (getSdnData env name country limit) w = (Returned r, w') /\
       SdnDataResponse.error r = failure_reason "SDN API request failed: " o /\
       SdnDataResponse.success r = negb (lookup_failed o) /\
       (lookup_failed o = true ->
        SdnDataResponse.data r = JArr [] /\ SdnDataResponse.count r = 0 /\
        is_Some (SdnDataResponse.error r))) /\
  (forall name fz,
     let o := net (calls w) (checkCustomerAgainstSdn_request env name (default true fz)) in
     exists r w',
       run net (checkCustomerAgainstSdn env name fz) w = (Returned r, w') /\
       CustomerCheckResponse.error r = failure_reason "SDN check failed: " o /\
       (lookup_failed o = true ->
        CustomerCheckResponse.riskLevel r = "UNKNOWN" /\
        CustomerCheckResponse.isSDN r = None /\
        is_Some (CustomerCheckResponse.error r))) /\
  (forall arg order,
     complete_order (length (elements_of arg)) order ->
     exists r w',
       bulkCheckSdn env net order arg w = Some (Returned r, w') /\
       (BulkCheckResponse.success r = false -> is_Some (BulkCheckResponse.error r)) /\
       Forall2
         (fun no e =>
            lookup_failed no.2 = true ->
            CustomerCheckResponse.riskLevel e = "UNKNOWN" /\
            is_Some (CustomerCheckResponse.error e))
         (lookups env net (calls w) (elements_of arg))
         (BulkCheckResponse.results r)) /\
  (forall arg order c w',
     bulkCheckSdn env net order arg w = Some (c, w') -> exists r, c = Returned r).
Proof.
  split; [| split; [| split]].
  - intros name country limit o. unfold getSdnData.
    cbn [run try_catch mbind prog_bind bind fetch default]. fold o.
    unfold lookup_failed, failure_reason.
    by_outcome o; eexists _, _; repeat split; eauto; discriminate.
  - intros name fz o. rewrite check_fetch. cbn [run]. fold o.
    unfold lookup_failed, failure_reason.
    by_outcome o; eexists _, _; repeat split; eauto; discriminate.
  - intros arg order Hcov.
    destruct (arg_cases arg) as [He | (names & -> & Hne)].
    + destruct (bulk_invalid env net order arg w He) as (r & Hr & _ & Herr & Hres).
      exists r, w. split; [done |]. split; [done |].
      rewrite He, Hres. constructor.
    + destruct (bulk_runs env net names w Hne) as (rs & Hrs & Hall).
      destruct (Hall order) as [Hs Hc].
      destruct (Hc Hcov) as [[c w'] H]. destruct (Hs _ _ H) as (r & -> & Hrep & _).
      exists r, w'. split; [done |].
      destruct Hrep as (Hsucc & Hres & _). split; [congruence |].
      rewrite Hres. cbn [elements_of].
      eapply Forall2_impl; [exact Hrs |]. intros no e He Hf.
      pose proof (entry_failed env no e He) as Hcase. rewrite Hf in Hcase.
      by destruct Hcase as (_ & ? & ?).
  - intros arg order c w' H.
    destruct (arg_cases arg) as [He | (names & -> & Hne)].
    + destruct (bulk_invalid env net order arg w He) as (r & Hr & _).
      rewrite Hr in H. injection H as <- _. by exists r.
    + destruct (bulk_runs env net names w Hne) as (rs & _ & Hall).
      destruct (Hall order) as [Hs _].
      destruct (Hs _ _ H) as (r & -> & _). by exists r.
Qed.

(** ** The scenarios of the spec, evaluated *)

Example scenario_one_match :
  exists r w',
    bulkCheckSdn None scenario_provider [0; 1; 2] (ArgNames scenario_names) empty_world
    = Some (Returned r, w') /\
    BulkCheckResponse.flaggedCount r = 1 /\
    BulkCheckResponse.summary r =
      {| BulkCheckSummary.critical := 1;
         BulkCheckSummary.clear := 2;
         BulkCheckSummary.unknown := 0 |} /\
    CustomerCheckResponse.riskLevel <$> BulkCheckResponse.results r !! 1
    = Some "CRITICAL" /\
    length (calls w') = 3.
Proof. eexists _, _. repeat split. Qed.

Example scenario_unreachable :
  exists r w',
    bulkCheckSdn None unreachable_provider [1; 0; 2] (ArgNames scenario_names) empty_world
    = Some (Returned r, w') /\
    BulkCheckResponse.success r = true /\
    BulkCheckResponse.summary r =
      {| BulkCheckSummary.critical := 0;
         BulkCheckSummary.clear := 0;
         BulkCheckSummary.unknown := 3 |} /\
    map CustomerCheckResponse.isSDN (BulkCheckResponse.results r) = [None; None; None].
Proof. eexists _, _. repeat split. Qed.

(** An order that leaves a lookup unanswered never lets the batch return. *)
Example scenario_pending :
  bulkCheckSdn None scenario_provider [2; 0] (ArgNames scenario_names) empty_world
  = None.
Proof. reflexivity. Qed.

(** ** Beyond the claims: requests, effects and composition *)

(** *** Helper facts *)

Lemma thrown_of_failed (prefix : string) (o : fetch_outcome) :
  thrown_of prefix o = None <-> lookup_failed o = false.
Proof.
  unfold thrown_of, lookup_failed. destruct o as [e | resp]; [done |].
  destruct (ok resp); [| done]. by destruct (body resp).
Qed.

Lemma check_lines (env : option string) (name : string) (fz : option bool)
  (o : fetch_outcome) :
  lines (continuation (checkCustomerAgainstSdn env name fz) o) =
  diagnostic "Error checking customer against SDN list:"
    (thrown_of "SDN check failed: " o).
Proof. by_outcome o; reflexivity. Qed.

Lemma run_check (env : option string) (net : provider) (name : string)
  (fz : option bool) (w : world) :
  let req := checkCustomerAgainstSdn_request env name (default true fz) in
  let o := net (calls w) req in
  run net (checkCustomerAgainstSdn env name fz) w =
  (answer (checkCustomerAgainstSdn env name fz) o,
   logged (diagnostic "Error checking customer against SDN list:"
             (thrown_of "SDN check failed: " o))
          (issue req w)).
Proof.
  intros req o. rewrite <- (check_lines env name fz o).
  exact (run_verdict net _ _ (check_continuation env name fz o) (issue req w)).
Qed.

Lemma getSdnData_answer (env : option string) (net : provider)
  (name country : option string) (limit : option number) (w : world) :
  let req := getSdnData_request env name country (default (Integer 100) limit) in
  let o := net (calls w) req in
  run net (getSdnData env name country limit) w =
  (answer (getSdnData env name country limit) o,
   logged (diagnostic "Error fetching SDN data:"
             (thrown_of "SDN API request failed: " o))
          (issue req w)).
Proof.
  intros req o. unfold answer, getSdnData.
  cbn [run try_catch mbind prog_bind bind fetch default]. fold req. fold o.
  unfold logged, log_line, issue.
  by_outcome o; cbn; by rewrite ?app_nil_r.
Qed.

(** *** The lookup *)

(** X1. The query of a lookup holds, in this order, [name] and [country]
    when they are given and not empty and [limit] when it is truthy (not
    zero, not [NaN]), and nothing else; no parameter is ever sent with an
    empty value. *)
Theorem getSdnData_request_params (env : option string)
  (name country : option string) (limit : number) :
  let req := getSdnData_request env name country limit in
  is_number limit = true ->
  query req =
    ((if truthy name then [("name", default "" name)] else []) ++
     (if truthy country then [("country", default "" country)] else []) ++
     (if truthy_num limit then [("limit", Number_toString limit)] else []))%list /\
  Forall (fun kv => kv.2 <> "") (query req) /\
  get (query req) "name" = (if truthy name then name else None) /\
  get (query req) "country" = (if truthy country then country else None).
Proof.
  intros req Hnum. subst req. unfold getSdnData_request.
  pose proof (Number_toString_nonempty limit Hnum) as Hl.
  destruct name as [n |], country as [c |]; cbn [truthy default];
    try destruct (String.eqb_spec n ""); try destruct (String.eqb_spec c "");
    destruct (truthy_num limit); cbn;
    (split; [reflexivity | split; [repeat constructor; done | done]]).
Qed.

Lemma getSdnData_request_params_witness :
  is_number (Finite "2.5") = true /\
  query (getSdnData_request None (Some "") (Some "ir") (Finite "2.5")) =
    [("country", "ir"); ("limit", "2.5")] /\
  Forall (fun kv => kv.2 <> "")
    (query (getSdnData_request None (Some "") (Some "ir") (Finite "2.5"))).
Proof.
  split; [reflexivity |].
  pose proof (getSdnData_request_params None (Some "") (Some "ir") (Finite "2.5")
                eq_refl) as H.
  cbv zeta in H. destruct H as (Hq & Hne & _).
  split; [exact Hq | exact Hne].
Defined.

(** X2. When the provider answers 2xx with a JSON array, the lookup returns
    [success = true] with that array as [data], its length as [count] and
    no error; one request has gone out and nothing is written to the
    console. *)
Theorem getSdnData_array_body (env : option string) (net : provider)
  (name country : option string) (limit : option number) (w : world)
  (resp : response) (items : list json) :
  let req := getSdnData_request env name country (default (Integer 100) limit) in
  net (calls w) req = inr resp ->
  ok resp = true ->
  body resp = inr (JArr items) ->
  run net (getSdnData env name country limit) w =
    (Returned {| SdnDataResponse.success := true;
                 SdnDataResponse.data := JArr items;
                 SdnDataResponse.count := length items;
                 SdnDataResponse.error := None |},
     issue req w).
Proof.
  intros req Hnet Hok Hbody. unfold getSdnData.
  cbn [run try_catch mbind prog_bind bind fetch default]. fold req.
  rewrite Hnet. cbn. rewrite Hok. cbn. unfold response_json.
  rewrite Hbody. reflexivity.
Qed.

Lemma getSdnData_array_body_witness :
  run scenario_provider
    (getSdnData None (Some "Known Sanctioned Entity") (Some "ir") (Some (Integer 5)))
    empty_world =
    (Returned {| SdnDataResponse.success := true;
                 SdnDataResponse.data := JArr [SdnRecord.to_json sanctioned];
                 SdnDataResponse.count := length [SdnRecord.to_json sanctioned];
                 SdnDataResponse.error := None |},
     issue (getSdnData_request None (Some "Known Sanctioned Entity") (Some "ir") (Integer 5))
       empty_world).
Proof.
  apply (getSdnData_array_body None scenario_provider
           (Some "Known Sanctioned Entity") (Some "ir") (Some (Integer 5)) empty_world
           {| status := 200; statusText := "OK";
              body := inr (JArr [SdnRecord.to_json sanctioned]) |});
    reflexivity.
Defined.

(** X3. Every lookup returns a result in which [count] is the length of
    [data] whenever [data] is an array (and 0 otherwise), a successful
    result has no error, and a failed one has empty [data], [count = 0]
    and an error. *)
Theorem getSdnData_result_invariant (env : option string) (net : provider)
  (name country : option string) (limit : option number) (w : world) :
  exists r w',
    run net (getSdnData env name country limit) w = (Returned r, w') /\
    SdnDataResponse.count r =
      (if Array_isArray (SdnDataResponse.data r)
       then dot_length (SdnDataResponse.data r) else 0) /\
    if SdnDataResponse.success r then SdnDataResponse.error r = None
    else SdnDataResponse.data r = JArr [] /\
         SdnDataResponse.count r = 0 /\
         is_Some (SdnDataResponse.error r).
Proof.
  rewrite getSdnData_answer. unfold answer, getSdnData.
  cbn [run try_catch mbind prog_bind bind fetch default fst].
  by_outcome (net (calls w)
                (getSdnData_request env name country (default (Integer 100) limit)));
    eexists _, _; (split; [reflexivity |]); cbn; eauto.
Qed.

(** X4. Every lookup issues exactly one request, the one built from its
    arguments, and writes exactly one console line when the lookup fails
    (the caught value under the label of the function) and none when it
    does not. *)
Theorem getSdnData_effects (env : option string) (net : provider)
  (name country : option string) (limit : option number) (w : world) :
  let req := getSdnData_request env name country (default (Integer 100) limit) in
  let o := net (calls w) req in
  let w' := snd (run net (getSdnData env name country limit) w) in
  calls w' = (calls w ++ [req])%list /\
  console w' =
    (console w ++
     diagnostic "Error fetching SDN data:"
       (thrown_of "SDN API request failed: " o))%list /\
  (thrown_of "SDN API request failed: " o = None <-> lookup_failed o = false).
Proof.
  intros req o w'. subst w'. rewrite getSdnData_answer.
  split; [done |]. split; [done |]. apply thrown_of_failed.
Qed.

(** *** The single check *)

(** X6. Every check result is consistent: the match flag is null exactly
    when an error is present; the risk level is CRITICAL, CLEAR or UNKNOWN
    as the flag is true, false or null; the flag is true exactly when
    [matchCount] is positive, in which case [matches] is an array of that
    length; and a null flag comes with the empty array as [matches]. *)
Theorem checkCustomerAgainstSdn_result_invariant (env : option string)
  (net : provider) (name : string) (fz : option bool) (w : world) :
  exists r w',
    run net (checkCustomerAgainstSdn env name fz) w = (Returned r, w') /\
    (CustomerCheckResponse.isSDN r = None <-> is_Some (CustomerCheckResponse.error r)) /\
    CustomerCheckResponse.riskLevel r =
      match CustomerCheckResponse.isSDN r with
      | Some true => "CRITICAL"
      | Some false => "CLEAR"
      | None => "UNKNOWN"
      end /\
    (CustomerCheckResponse.isSDN r = Some true <-> 0 < CustomerCheckResponse.matchCount r) /\
    (CustomerCheckResponse.isSDN r = Some true ->
     Array_isArray (CustomerCheckResponse.matches r) = true /\
     dot_length (CustomerCheckResponse.matches r) = CustomerCheckResponse.matchCount r) /\
    (CustomerCheckResponse.isSDN r = None -> CustomerCheckResponse.matches r = JArr []).
Proof.
  rewrite run_check. unfold answer. rewrite check_fetch. cbn [run fst].
  by_outcome (net (calls w)
                (checkCustomerAgainstSdn_request env name (default true fz)));
    try (destruct v as [| | | | [| first more] |]);
    eexists _, _; (split; [reflexivity |]); cbn;
    repeat split; intros; try done; try lia; eauto.
Qed.

(** X7. The risk level of a check tells how the lookup settled: UNKNOWN
    exactly when the lookup failed (rejected fetch, non-2xx status or
    unreadable body); CRITICAL exactly when the provider answered 2xx with
    a non-empty array; CLEAR exactly when it answered 2xx with a readable
    body that is not a non-empty array. *)
Theorem checkCustomerAgainstSdn_risk_conditions (env : option string)
  (net : provider) (name : string) (fz : option bool) (w : world) :
  let o := net (calls w) (checkCustomerAgainstSdn_request env name (default true fz)) in
  exists r,
    fst (run net (checkCustomerAgainstSdn env name fz) w) = Returned r /\
    (CustomerCheckResponse.riskLevel r = "UNKNOWN" <-> lookup_failed o = true) /\
    (CustomerCheckResponse.riskLevel r = "CRITICAL" <->
     exists resp first more,
       o = inr resp /\ ok resp = true /\ body resp = inr (JArr (first :: more))) /\
    (CustomerCheckResponse.riskLevel r = "CLEAR" <->
     exists resp v,
       o = inr resp /\ ok resp = true /\ body resp = inr v /\
       forall first more, v <> JArr (first :: more)).
Proof.
  intros o. rewrite run_check. fold o. unfold answer. rewrite check_fetch.
  cbn [run fst]. unfold lookup_failed.
  destruct o as [e | resp]; cbn.
  - eexists. split; [reflexivity |]. cbn. repeat split; try done.
    + by intros (? & ? & ? & ? & _).
    + by intros (? & ? & ? & _).
  - destruct (ok resp) eqn:Hok; cbn.
    + unfold response_json. destruct (body resp) as [e | v] eqn:Hbody; cbn.
      * eexists. split; [reflexivity |]. cbn. repeat split; try done.
        -- intros (resp' & ? & ? & [= <-] & _ & ?). congruence.
        -- intros (resp' & ? & [= <-] & _ & ? & _). congruence.
      * destruct v as [| | | | [| first more] |];
          (eexists; split; [reflexivity |]); cbn; repeat split; try done;
          try (intros (resp' & ? & ? & [= <-] & _ & ?); congruence);
          try (intros _; exists resp; eauto 10; fail);
          try (intros _; exists resp; eexists; repeat split; eauto; done).
        intros (resp' & v' & [= <-] & _ & Hb & Hv). rewrite Hbody in Hb.
        injection Hb as <-. by destruct (Hv first more).
    + eexists. split; [reflexivity |]. cbn. repeat split; try done.
      * intros (resp' & ? & ? & [= <-] & ? & _). congruence.
      * intros (resp' & ? & [= <-] & ? & _). congruence.
Qed.

(** X8. Every check issues exactly one request: it always carries the
    customer name, also when the name is empty, carries [fuzzy=true]
    unless the flag is false, and carries nothing else (no limit, no
    header).  One console line is written when the lookup fails, none
    otherwise. *)
Theorem checkCustomerAgainstSdn_effects (env : option string) (net : provider)
  (name : string) (fz : option bool) (w : world) :
  let req := checkCustomerAgainstSdn_request env name (default true fz) in
  let o := net (calls w) req in
  let w' := snd (run net (checkCustomerAgainstSdn env name fz) w) in
  calls w' = (calls w ++ [req])%list /\
  query req = ("name", name) :: (if default true fz then [("fuzzy", "true")] else []) /\
  headers req = [] /\
  console w' =
    (console w ++
     diagnostic "Error checking customer against SDN list:"
       (thrown_of "SDN check failed: " o))%list /\
  (thrown_of "SDN check failed: " o = None <-> lookup_failed o = false).
Proof.
  intros req o w'. subst w'. rewrite run_check.
  split; [done |]. split; [by destruct fz as [[|] |] |].
  split; [done |]. split; [done |]. apply thrown_of_failed.
Qed.

(** *** The batch: helper facts *)

Lemma gather_returned {A : Type} (ts : list (task A)) :
  forall vs, gather ts = Some (Returned vs) ->
             ts = map (fun v => Settled (Returned v)) vs.
Proof.
  induction ts as [| t ts IH]; simpl; intros vs Hg.
  - by injection Hg as <-.
  - destruct t as [[a | e] | q].
    + destruct (gather ts) as [[vs' | e] |]; try done.
      injection Hg as <-. simpl. by rewrite <- (IH vs').
    + done.
    + by destruct (gather ts) as [[vs' | e] |].
Qed.

Lemma pending_lines_settled {A : Type} (vs : list A) :
  pending_lines (map (fun v => Settled (Returned v)) vs) = [].
Proof. unfold pending_lines. induction vs as [| v vs IH]; [done | by simpl]. Qed.

Lemma pending_lines_insert {A : Type} (ts : list (task A)) :
  forall i q c,
    ts !! i = Some (Suspended q) ->
    pending_lines ts ≡ₚ (lines q ++ pending_lines (<[i := Settled c]> ts))%list.
Proof.
  unfold pending_lines.
  induction ts as [| t ts IH]; intros [| i] q c Hi; try done; simpl in *.
  - by injection Hi as ->.
  - rewrite (IH i q c Hi). by rewrite !app_assoc, (Permutation_app_comm (lines q)).
Qed.

Lemma settle_console {A : Type} (net : provider) (order : list nat) :
  forall (ts : list (task A)) (rs : list A) (w : world) c w',
    Forall2 yields ts rs ->
    settle net order ts w = Some (c, w') ->
    console w' ≡ₚ (console w ++ pending_lines ts)%list.
Proof.
  induction order as [| i order IH]; intros ts rs w c w' Hts; simpl;
    destruct (gather ts) as [c0 |] eqn:Hg; try done;
    try (intros [= <- <-];
         destruct (gather_yields ts rs Hts) as [Hr | [Hr _]]; [| congruence];
         rewrite Hr in Hg; injection Hg as <-;
         rewrite (gather_returned ts rs Hr), pending_lines_settled;
         by rewrite app_nil_r).
  destruct (ts !! i) as [[c1 | q] |] eqn:Hi; try (by apply (IH _ rs)).
  destruct (yields_settled ts rs i q Hts Hi) as (r & Hv & Hts').
  rewrite (advance_verdict net q _ Hv w). intros Hs.
  rewrite (IH _ rs _ _ _ Hts' Hs). cbn [logged console].
  rewrite <- app_assoc. apply Permutation_app_head.
  symmetry. by apply pending_lines_insert.
Qed.

Lemma settle_incomplete {A : Type} (net : provider) (order : list nat) :
  forall (ts : list (task A)) (rs : list A) (w : world) i q,
    Forall2 yields ts rs ->
    ts !! i = Some (Suspended q) ->
    i ∉ order ->
    settle net order ts w = None.
Proof.
  induction order as [| j order IH]; intros ts rs w i q Hts Hi Hni; simpl;
    (destruct (gather_yields ts rs Hts) as [Hr | [-> _]];
     [apply gather_returned in Hr; rewrite Hr, list_lookup_fmap in Hi;
      by destruct (rs !! i) |]); [done |].
  apply not_elem_of_cons in Hni as [Hne Hni].
  destruct (ts !! j) as [[c1 | q'] |] eqn:Hj; try (by apply (IH _ rs _ i q)).
  destruct (yields_settled ts rs j q' Hts Hj) as (r & Hv & Hts').
  rewrite (advance_verdict net q' _ Hv w).
  apply (IH _ rs _ i q); [done | | done].
  by rewrite list_lookup_insert_ne.
Qed.

Lemma bulk_settle (env : option string) (net : provider) (order : list nat)
  (names : list string) (w : world) :
  names <> [] ->
  exists rs,
    Forall2 (entry_of env) (lookups env net (calls w) names) rs /\
    match settle net order (map (check_task env) (lookups env net (calls w) names))
            {| calls := (calls w ++
                 map (fun name => checkCustomerAgainstSdn_request env name true) names)%list;
               console := console w |} with
    | Some (c, w') =>
        c = Returned rs /\
        exists r, bulkCheckSdn env net order (ArgNames names) w = Some (Returned r, w') /\
                  reports rs r
    | None => bulkCheckSdn env net order (ArgNames names) w = None
    end.
Proof.
  intros Hne.
  destruct (entries_exist env (lookups env net (calls w) names)) as (rs & Hrs).
  exists rs. split; [done |].
  pose proof (tasks_yield env _ rs Hrs) as Hy.
  unfold bulkCheckSdn. destruct names as [| name names]; [done |].
  cbn [Array_isArray_arg elements_of negb orb length Nat.eqb].
  unfold async_try_catch, mbind, async_bind, mret, async_ret, Promise_all.
  rewrite launch_checks.
  destruct (settle net order _ _) as [[c w'] |] eqn:Hs; [| done].
  destruct (settle_sound net order _ rs _ c w' Hy Hs) as [-> _].
  split; [done |]. eexists. split; [reflexivity |]. by repeat split.
Qed.

Lemma check_each_spec (env : option string) (net : provider) (names : list string) :
  forall w,
    check_each env net names w =
    (map (fun no => answer (checkCustomerAgainstSdn env no.1 (Some true)) no.2)
         (lookups env net (calls w) names),
     {| calls := (calls w ++
          map (fun name => checkCustomerAgainstSdn_request env name true) names)%list;
        console := (console w ++
          pending_lines (map (check_task env) (lookups env net (calls w) names)))%list |}).
Proof.
  induction names as [| name names IH]; intros w.
  - simpl. rewrite !app_nil_r. by destruct w.
  - cbn [check_each lookups map]. rewrite run_check, IH.
    cbn [default logged issue calls console fst snd]. f_equal.
    unfold pending_lines. cbn [map concat check_task task_lines fst snd].
    rewrite check_lines. f_equal; by rewrite <- app_assoc.
Qed.

Lemma check_tasks_lines (env : option string) (l : list (string * fetch_outcome)) :
  pending_lines (map (check_task env) l) =
  concat (map (fun no =>
                 diagnostic "Error checking customer against SDN list:"
                   (thrown_of "SDN check failed: " no.2)) l).
Proof.
  unfold pending_lines. induction l as [| [name o] l IH]; [done |].
  cbn [map concat check_task task_lines fst snd]. by rewrite check_lines, IH.
Qed.

Lemma unknown_tally (env : option string) (l : list (string * fetch_outcome))
  (rs : list CustomerCheckResponse.t) :
  Forall2 (entry_of env) l rs ->
  length (List.filter
    (fun e => String.eqb (CustomerCheckResponse.riskLevel e) "UNKNOWN") rs) =
  length (concat (map (fun no =>
                 diagnostic "Error checking customer against SDN list:"
                   (thrown_of "SDN check failed: " no.2)) l)).
Proof.
  induction 1 as [| no e l rs He _ IH]; [done |].
  cbn [map concat List.filter]. rewrite length_app, <- IH.
  pose proof (entry_failed env no e He) as Hf.
  pose proof (thrown_of_failed "SDN check failed: " no.2) as Ht.
  destruct (lookup_failed no.2).
  - destruct Hf as (_ & -> & _). cbn.
    destruct (thrown_of "SDN check failed: " no.2); [done |].
    by destruct Ht as [Ht _]; specialize (Ht eq_refl).
  - destruct Hf as (_ & Hne & _). destruct Ht as [_ ->]; [| done]. cbn.
    by destruct (String.eqb_spec (CustomerCheckResponse.riskLevel e) "UNKNOWN").
Qed.

Lemma entries_answers (env : option string) (l : list (string * fetch_outcome))
  (rs : list CustomerCheckResponse.t) :
  Forall2 (entry_of env) l rs ->
  map Returned rs =
  map (fun no => answer (checkCustomerAgainstSdn env no.1 (Some true)) no.2) l.
Proof.
  induction 1 as [| no e l rs He _ IH]; [done |].
  cbn [map]. by rewrite IH, He.
Qed.

Lemma bulk_world (env : option string) (net : provider) (order : list nat)
  (arg : names_arg) (w w' : world) (r : BulkCheckResponse.t) :
  bulkCheckSdn env net order arg w = Some (Returned r, w') ->
  exists rs,
    Forall2 (entry_of env) (lookups env net (calls w) (elements_of arg)) rs /\
    BulkCheckResponse.results r = rs /\
    BulkCheckSummary.unknown (BulkCheckResponse.summary r) =
      length (List.filter
        (fun e => String.eqb (CustomerCheckResponse.riskLevel e) "UNKNOWN") rs) /\
    calls w' = (calls w ++
      map (fun name => checkCustomerAgainstSdn_request env name true)
          (elements_of arg))%list /\
    console w' ≡ₚ
      (console w ++
       pending_lines (map (check_task env)
                        (lookups env net (calls w) (elements_of arg))))%list.
Proof.
  intros Hrun. destruct (arg_cases arg) as [He | (names & -> & Hne)].
  - destruct (bulk_invalid env net order arg w He) as (r' & Hr' & _ & _ & Hres).
    rewrite Hr' in Hrun. injection Hrun as -> <-. rewrite He. exists [].
    cbn. rewrite !app_nil_r. repeat split; try done.
    revert Hr'. unfold bulkCheckSdn. rewrite He, orb_true_r.
    by intros [= <-].
  - cbn [elements_of].
    destruct (bulk_settle env net order names w Hne) as (rs & Hrs & Hm).
    exists rs. split; [done |].
    pose proof (tasks_yield env _ rs Hrs) as Hy.
    destruct (settle net order _ _) as [[c w1] |] eqn:Hs; [| congruence].
    destruct Hm as (-> & r' & Hr' & Hrep).
    rewrite Hr' in Hrun. injection Hrun as -> ->.
    destruct (settle_sound net order _ rs _ _ _ Hy Hs) as [_ Hcalls].
    pose proof (settle_console net order _ rs _ _ _ Hy Hs) as Hcons.
    destruct Hrep as (_ & Hres & _ & _ & _ & _ & Hunk & _).
    by repeat split.
Qed.

(** *** The batch *)

(** X9. Whenever the batch returns, the requests that have gone out are
    exactly one per name, in the order of the names (repeated names
    included), each carrying the name and [fuzzy=true] and nothing else,
    whatever the order in which the answers arrive; a rejected argument
    sends none. *)
Theorem bulkCheckSdn_requests (env : option string) (net : provider)
  (order : list nat) (arg : names_arg) (w w' : world)
  (c : completion BulkCheckResponse.t) :
  bulkCheckSdn env net order arg w = Some (c, w') ->
  calls w' =
    (calls w ++
     map (fun name =>
            {| endpoint := API_BASE_URL env +:+ "/getsdn?";
               query := [("name", name); ("fuzzy", "true")];
               method := "GET";
               headers := [] |})
         (elements_of arg))%list.
Proof.
  intros Hrun. destruct (arg_cases arg) as [He | (names & -> & Hne)].
  - destruct (bulk_invalid env net order arg w He) as (r' & Hr' & _).
    rewrite Hr' in Hrun. injection Hrun as _ <-. rewrite He. cbn.
    by rewrite app_nil_r.
  - destruct (bulk_runs env net names w Hne) as (rs & _ & Hall).
    destruct (Hall order) as [Hs _].
    by destruct (Hs _ _ Hrun) as (r & _ & _ & ->).
Qed.

Lemma bulkCheckSdn_requests_witness :
  exists c w',
    bulkCheckSdn None mixed_provider [2; 0; 1] (ArgNames ["Jane Doe"; "Jane Doe"; ""])
      empty_world = Some (c, w') /\
    calls w' =
      (calls empty_world ++
       map (fun name =>
              {| endpoint := API_BASE_URL None +:+ "/getsdn?";
                 query := [("name", name); ("fuzzy", "true")];
                 method := "GET";
                 headers := [] |})
           (elements_of (ArgNames ["Jane Doe"; "Jane Doe"; ""])))%list.
Proof.
  eexists _, _. split; [reflexivity |].
  eapply (bulkCheckSdn_requests None mixed_provider [2; 0; 1]
            (ArgNames ["Jane Doe"; "Jane Doe"; ""]) empty_world).
  reflexivity.
Defined.

(** X10. The batch returns exactly when every lookup it started gets its
    answer: one lookup that never completes keeps the whole batch from
    returning (there is no timeout), and a rejected argument, which starts
    none, always returns. *)
Theorem bulkCheckSdn_returns_iff (env : option string) (net : provider)
  (order : list nat) (arg : names_arg) (w : world) :
  is_Some (bulkCheckSdn env net order arg w) <->
  complete_order (length (elements_of arg)) order.
Proof.
  destruct (arg_cases arg) as [He | (names & -> & Hne)].
  - destruct (bulk_invalid env net order arg w He) as (r & -> & _).
    rewrite He. split; [| done]. intros _ i Hi. simpl in Hi. lia.
  - cbn [elements_of]. split.
    + intros Hsome i Hi.
      destruct (decide (i ∈ order)) as [| Hni]; [done |]. exfalso.
      destruct (bulk_settle env net order names w Hne) as (rs & Hrs & Hm).
      pose proof (tasks_yield env _ rs Hrs) as Hy.
      rewrite <- (lookups_length env net (calls w) names) in Hi.
      destruct (lookup_lt_is_Some_2 _ _ Hi) as [no Hno].
      rewrite (settle_incomplete net order _ rs _ i
                 (continuation (checkCustomerAgainstSdn env no.1 (Some true)) no.2)
                 Hy) in Hm; [| | done].
      * rewrite Hm in Hsome. by destruct Hsome.
      * by rewrite list_lookup_fmap, Hno.
    + intros Hcov. destruct (bulk_runs env net names w Hne) as (rs & _ & Hall).
      by apply (Hall order).
Qed.

(** X11. Whenever the batch returns, its entries and the requests issued
    are those of running the checks one after the other, each awaited
    before the next is started; the console holds the same lines, in an
    order that may differ. *)
Theorem bulkCheckSdn_as_sequential (env : option string) (net : provider)
  (order : list nat) (arg : names_arg) (w w' : world) (r : BulkCheckResponse.t) :
  bulkCheckSdn env net order arg w = Some (Returned r, w') ->
  map Returned (BulkCheckResponse.results r) =
    fst (check_each env net (elements_of arg) w) /\
  calls w' = calls (snd (check_each env net (elements_of arg) w)) /\
  console w' ≡ₚ console (snd (check_each env net (elements_of arg) w)).
Proof.
  intros Hrun.
  destruct (bulk_world env net order arg w w' r Hrun)
    as (rs & Hrs & -> & _ & Hcalls & Hcons).
  rewrite check_each_spec. cbn [fst snd calls console].
  split; [by apply entries_answers | by split].
Qed.

Lemma bulkCheckSdn_as_sequential_witness :
  exists r w',
    bulkCheckSdn None mixed_provider [2; 0; 1] (ArgNames mixed_names) empty_world
    = Some (Returned r, w') /\
    map Returned (BulkCheckResponse.results r) =
      fst (check_each None mixed_provider (elements_of (ArgNames mixed_names)) empty_world) /\
    calls w' =
      calls (snd (check_each None mixed_provider (elements_of (ArgNames mixed_names))
                    empty_world)) /\
    console w' ≡ₚ
      console (snd (check_each None mixed_provider (elements_of (ArgNames mixed_names))
                      empty_world)).
Proof.
  eexists _, _. split; [reflexivity |].
  eapply (bulkCheckSdn_as_sequential None mixed_provider [2; 0; 1]
            (ArgNames mixed_names) empty_world).
  reflexivity.
Defined.

(** X12. Whenever the batch returns, the lines it has added to the console
    are, in some order, one line per failed lookup, each under the label of
    the single check with the value caught there; so their number is
    [summary.unknown], and no line of the batch's own [catch] is ever
    written. *)
Theorem bulkCheckSdn_diagnostics (env : option string) (net : provider)
  (order : list nat) (arg : names_arg) (w w' : world) (r : BulkCheckResponse.t) :
  bulkCheckSdn env net order arg w = Some (Returned r, w') ->
  console w' ≡ₚ
    (console w ++
     concat (map (fun no =>
                    diagnostic "Error checking customer against SDN list:"
                      (thrown_of "SDN check failed: " no.2))
                 (lookups env net (calls w) (elements_of arg))))%list /\
  length (console w') =
    length (console w) + BulkCheckSummary.unknown (BulkCheckResponse.summary r).
Proof.
  intros Hrun.
  destruct (bulk_world env net order arg w w' r Hrun)
    as (rs & Hrs & _ & Hunk & _ & Hcons).
  rewrite check_tasks_lines in Hcons. split; [done |].
  rewrite Hcons, length_app, Hunk. f_equal. symmetry.
  by apply (unknown_tally env).
Qed.

Lemma bulkCheckSdn_diagnostics_witness :
  exists r w',
    bulkCheckSdn None mixed_provider [2; 0; 1] (ArgNames mixed_names) empty_world
    = Some (Returned r, w') /\
    BulkCheckSummary.unknown (BulkCheckResponse.summary r) = 1 /\
    console w' ≡ₚ
      (console empty_world ++
       concat (map (fun no =>
                      diagnostic "Error checking customer against SDN list:"
                        (thrown_of "SDN check failed: " no.2))
                   (lookups None mixed_provider (calls empty_world)
                      (elements_of (ArgNames mixed_names)))))%list /\
    length (console w') =
      length (console empty_world) +
      BulkCheckSummary.unknown (BulkCheckResponse.summary r).
Proof.
  eexists _, _. split; [reflexivity |]. split; [reflexivity |].
  eapply (bulkCheckSdn_diagnostics None mixed_provider [2; 0; 1]
            (ArgNames mixed_names) empty_world).
  reflexivity.
Defined.

Lemma entry_by_outcome (env : option string) (no : string * fetch_outcome)
  (e : CustomerCheckResponse.t) :
  entry_of env no e ->
  is_true (CustomerCheckResponse.isSDN e) = has_records no.2 /\
  String.eqb (CustomerCheckResponse.riskLevel e) "UNKNOWN" = lookup_failed no.2 /\
  String.eqb (CustomerCheckResponse.riskLevel e) "CLEAR" =
    negb (lookup_failed no.2) && negb (has_records no.2).
Proof.
  unfold entry_of, answer. destruct no as [name o]. cbn [fst snd].
  rewrite check_fetch. cbn [run fst]. unfold lookup_failed, has_records.
  by_outcome o; try (destruct v as [| | | | [| first more] |]);
    intros [= <-]; done.
Qed.

(** X13. Whenever the batch returns, its tallies count the lookups by how
    they settled: [flaggedCount] and [summary.critical] are the number of
    lookups answered 2xx with a non-empty array, [summary.unknown] the
    number of failed lookups, and [summary.clear] the number of the
    others. *)
Theorem bulkCheckSdn_tallies_by_outcome (env : option string) (net : provider)
  (order : list nat) (names : list string) (w w' : world)
  (r : BulkCheckResponse.t) :
  names <> [] ->
  bulkCheckSdn env net order (ArgNames names) w = Some (Returned r, w') ->
  let os := map snd (lookups env net (calls w) names) in
  BulkCheckResponse.flaggedCount r = length (List.filter has_records os) /\
  BulkCheckSummary.critical (BulkCheckResponse.summary r) =
    length (List.filter has_records os) /\
  BulkCheckSummary.unknown (BulkCheckResponse.summary r) =
    length (List.filter lookup_failed os) /\
  BulkCheckSummary.clear (BulkCheckResponse.summary r) =
    length (List.filter (fun o => negb (lookup_failed o) && negb (has_records o)) os).
Proof.
  intros Hne Hrun os. subst os.
  destruct (bulk_runs env net names w Hne) as (rs & Hrs & Hall).
  destruct (Hall order) as [Hs _].
  destruct (Hs _ _ Hrun) as (r' & [= <-] & Hrep & _).
  destruct Hrep as (_ & _ & _ & -> & -> & -> & -> & _).
  clear -Hrs. induction Hrs as [| no e l rs He _ (IH1 & IH2 & IH3 & IH4)]; [done |].
  destruct (entry_by_outcome env no e He) as (H1 & H2 & H3).
  cbn [map List.filter]. rewrite H1, H2, H3.
  destruct (has_records no.2), (lookup_failed no.2); cbn [negb andb length];
    by rewrite ?IH1, ?IH2, ?IH3, ?IH4.
Qed.

Lemma bulkCheckSdn_tallies_by_outcome_witness :
  mixed_names <> [] /\
  exists r w',
    bulkCheckSdn None mixed_provider [1; 2; 0] (ArgNames mixed_names) empty_world
    = Some (Returned r, w') /\
    BulkCheckResponse.summary r =
      {| BulkCheckSummary.critical := 1;
         BulkCheckSummary.clear := 1;
         BulkCheckSummary.unknown := 1 |} /\
    let os := map snd (lookups None mixed_provider (calls empty_world) mixed_names) in
    BulkCheckResponse.flaggedCount r = length (List.filter has_records os) /\
    BulkCheckSummary.critical (BulkCheckResponse.summary r) =
      length (List.filter has_records os) /\
    BulkCheckSummary.unknown (BulkCheckResponse.summary r) =
      length (List.filter lookup_failed os) /\
    BulkCheckSummary.clear (BulkCheckResponse.summary r) =
      length (List.filter (fun o => negb (lookup_failed o) && negb (has_records o)) os).
Proof.
  split; [discriminate |].
  eexists _, _. split; [reflexivity |]. split; [reflexivity |].
  eapply (bulkCheckSdn_tallies_by_outcome None mixed_provider [1; 2; 0]
            mixed_names empty_world); [discriminate | reflexivity].
Defined.
